(** * scrape_ucsb_courses: a shallow embedding and its verification

    The development follows [scripts/scrape_ucsb_courses.py].  Python
    strings are lists of characters; a character is a code point below
    256 (Rocq's [ascii]).  Python integers are [Z], and Python floats
    are binary64 numbers with their rounding.  The parsed HTML document
    is a tree of tags and strings, as BeautifulSoup builds it; the HTML
    parser itself and the HTTP client are libraries outside the
    repository and appear as section variables of the driver. *)

From Stdlib Require Import List Ascii String Bool Arith Lia ZArith.
Import ListNotations.

Local Open Scope char_scope.
Local Open Scope nat_scope.
Local Open Scope list_scope.

(** ** Strings *)

Definition text := list ascii.

(** A Python string literal. *)
Definition L (s : string) : text := list_ascii_of_string s.

Definition text_eqb (a b : text) : bool :=
  if list_eq_dec ascii_dec a b then true else false.

(** [ord(c)] *)
Definition ord (c : ascii) : nat := nat_of_ascii c.

Definition in_range (lo hi : nat) (c : ascii) : bool :=
  (lo <=? ord c) && (ord c <=? hi).

(** [str.isspace] on one character, which is also the class [\s] of
    [re] on [str] patterns: U+0009..U+000D, U+001C..U+0020, U+0085 and
    U+00A0 are the white-space code points below 256. *)
Definition is_space (c : ascii) : bool :=
  in_range 9 13 c || in_range 28 32 c || (ord c =? 133) || (ord c =? 160).

(** [s.strip()] *)
Fixpoint lstrip (s : text) : text :=
  match s with
  | c :: s' => if is_space c then lstrip s' else s
  | [] => []
  end.

Definition rstrip (s : text) : text := rev (lstrip (rev s)).

Definition strip (s : text) : text := rstrip (lstrip s).

(** re.sub(r"\s+", " ", s): every maximal run of white space becomes
    one space.  [in_run] tells that the previous character belonged to
    the run being replaced. *)
Fixpoint sub_spaces (in_run : bool) (s : text) : text :=
  match s with
  | [] => []
  | c :: s' =>
      if is_space c
      then if in_run then sub_spaces true s' else " " :: sub_spaces true s'
      else c :: sub_spaces false s'
  end.

Definition norm_space (s : text) : text := strip (sub_spaces false s).

(** [s.rstrip(":")] and the like: all trailing occurrences of [ch] go. *)
Fixpoint lstrip_char (ch : ascii) (s : text) : text :=
  match s with
  | c :: s' => if Ascii.eqb c ch then lstrip_char ch s' else s
  | [] => []
  end.

Definition rstrip_char (ch : ascii) (s : text) : text :=
  rev (lstrip_char ch (rev s)).

(** [s.split(sep)] for a one-character separator. *)
Fixpoint split (sep : ascii) (s : text) : list text :=
  match s with
  | [] => [[]]
  | c :: s' =>
      if Ascii.eqb c sep then [] :: split sep s'
      else match split sep s' with
           | piece :: pieces => (c :: piece) :: pieces
           | [] => [[c]]
           end
  end.

(** [s.split(sep, 1)] when [sep in s]: the text before the first
    separator and the text after it. *)
Fixpoint split1 (sep : ascii) (s : text) : text * text :=
  match s with
  | [] => ([], [])
  | c :: s' =>
      if Ascii.eqb c sep then ([], s')
      else let '(l, r) := split1 sep s' in (c :: l, r)
  end.

(** [sep.join(parts)] *)
Fixpoint join (sep : text) (parts : list text) : text :=
  match parts with
  | [] => []
  | [p] => p
  | p :: ps => p ++ sep ++ join sep ps
  end.

Fixpoint startswith (p s : text) : bool :=
  match p, s with
  | [], _ => true
  | a :: p', b :: s' => Ascii.eqb a b && startswith p' s'
  | _ :: _, [] => false
  end.

(** [needle in hay] *)
Fixpoint contains (needle hay : text) : bool :=
  startswith needle hay ||
  match hay with
  | [] => false
  | _ :: hay' => contains needle hay'
  end.

(** [s.endswith(suffix)] *)
Definition endswith (suffix s : text) : bool :=
  startswith (rev suffix) (rev s).

(** [str.upper] and [str.lower], character by character.  Below 256 the
    letters are a-z, A-Z and the Latin-1 letters; U+00DF upper-cases to
    "SS".  The upper-case forms of U+00B5 and U+00FF lie above 255 and
    cannot be written here: these two characters are kept, which no
    comparison with an ASCII word can tell apart. *)
Definition upper_char (c : ascii) : text :=
  if in_range 97 122 c then [ascii_of_nat (ord c - 32)]
  else if ord c =? 223 then L "SS"
  else if in_range 224 254 c && negb (ord c =? 247)
       then [ascii_of_nat (ord c - 32)]
  else [c].

Definition lower_char (c : ascii) : ascii :=
  if in_range 65 90 c then ascii_of_nat (ord c + 32)
  else if in_range 192 222 c && negb (ord c =? 215)
       then ascii_of_nat (ord c + 32)
  else c.

Definition upper (s : text) : text := flat_map upper_char s.
Definition lower (s : text) : text := map lower_char s.

(** [len(s)] *)
Definition len (s : text) : nat := List.length s.

(** Truth value of a string: [if s:] *)
Definition nonempty (s : text) : bool :=
  match s with [] => false | _ :: _ => true end.

(** ** Regular expressions

    The fragment of [re] the script uses: anchors, one character of a
    class, a class repeated between [lo] and [hi] times (greedy or
    lazy), sequence, alternation and numbered groups.  Matching is by
    backtracking with a continuation, in the order [re] explores:
    a greedy repetition tries the longest run first, a lazy one the
    shortest, and an alternation its left branch first. *)

Inductive regex : Type :=
| Bol                                   (* ^ *)
| Eol                                   (* $ *)
| Chr (cls : ascii -> bool)             (* one character of the class *)
| Rep (cls : ascii -> bool) (lo : nat) (hi : option nat) (greedy : bool)
| Seq (r1 r2 : regex)
| Alt (r1 r2 : regex)
| Grp (i : nat) (r : regex).

(** The matcher's position: how many characters lie behind it and the
    text ahead of it. *)
Record cursor : Type := { pos : nat; rest : text }.

Definition groups := list (nat * text).

Definition advance (cur : cursor) (n : nat) : cursor :=
  {| pos := pos cur + n; rest := skipn n (rest cur) |}.

Definition below (n : nat) (hi : option nat) : bool :=
  match hi with
  | None => true
  | Some h => n <? h
  end.

(** [rep cls lo hi greedy n s p k]: [n] characters of the run are
    already taken, [s] is the text ahead at position [p]. *)
Fixpoint rep {A : Type} (cls : ascii -> bool) (lo : nat) (hi : option nat)
    (greedy : bool) (n : nat) (s : text) (p : nat)
    (k : cursor -> option A) : option A :=
  let stop := if lo <=? n then k {| pos := p; rest := s |} else None in
  match s with
  | c :: s' =>
      if cls c && below n hi then
        if greedy then
          match rep cls lo hi greedy (S n) s' (S p) k with
          | Some x => Some x
          | None => stop
          end
        else
          match stop with
          | Some x => Some x
          | None => rep cls lo hi greedy (S n) s' (S p) k
          end
      else stop
  | [] => stop
  end.

(** [$] without [re.MULTILINE]: at the end, or before a final newline. *)
Definition at_eol (s : text) : bool :=
  match s with
  | [] => true
  | [c] => ord c =? 10
  | _ => false
  end.

Fixpoint run {A : Type} (r : regex) (cur : cursor) (g : groups)
    (k : cursor -> groups -> option A) : option A :=
  match r with
  | Bol => if pos cur =? 0 then k cur g else None
  | Eol => if at_eol (rest cur) then k cur g else None
  | Chr cls =>
      match rest cur with
      | c :: s' => if cls c then k {| pos := S (pos cur); rest := s' |} g else None
      | [] => None
      end
  | Rep cls lo hi greedy =>
      rep cls lo hi greedy 0 (rest cur) (pos cur) (fun cur' => k cur' g)
  | Seq r1 r2 => run r1 cur g (fun cur' g' => run r2 cur' g' k)
  | Alt r1 r2 =>
      match run r1 cur g k with
      | Some x => Some x
      | None => run r2 cur g k
      end
  | Grp i r1 =>
      run r1 cur g
        (fun cur' g' => k cur' ((i, firstn (pos cur' - pos cur) (rest cur)) :: g'))
  end.

(** [m.group(i)] of a group that took part in the match. *)
Fixpoint group (i : nat) (g : groups) : text :=
  match g with
  | [] => []
  | (j, t) :: g' => if i =? j then t else group i g'
  end.

(** [pattern.match(s)]: the match must start at position 0. *)
Definition re_match (r : regex) (s : text) : option groups :=
  run r {| pos := 0; rest := s |} [] (fun _ g => Some g).

(** [re.search(pattern, s)]: the leftmost start that matches. *)
Fixpoint search_from (r : regex) (p : nat) (s : text) : option groups :=
  match run r {| pos := p; rest := s |} [] (fun _ g => Some g) with
  | Some g => Some g
  | None =>
      match s with
      | [] => None
      | _ :: s' => search_from r (S p) s'
      end
  end.

Definition re_search (r : regex) (s : text) : option groups :=
  search_from r 0 s.

(** Character classes. *)
Definition cls_upper (c : ascii) : bool := in_range 65 90 c.          (* [A-Z] *)
Definition cls_digit (c : ascii) : bool := in_range 48 57 c.          (* [0-9] *)
Definition cls_upper_digit (c : ascii) : bool := cls_upper c || cls_digit c. (* [A-Z0-9] *)
Definition cls_dot (c : ascii) : bool := negb (ord c =? 10).         (* . *)
Definition cls_is (ch : ascii) (c : ascii) : bool := Ascii.eqb c ch.
Definition cls_not_rparen (c : ascii) : bool := negb (Ascii.eqb c ")"). (* [^)] *)
Definition cls_not_paren (c : ascii) : bool :=
  negb (Ascii.eqb c "(" || Ascii.eqb c ")").                          (* [^()] *)

Definition star (cls : ascii -> bool) : regex := Rep cls 0 None true.
Definition plus (cls : ascii -> bool) : regex := Rep cls 1 None true.
Definition lazy_plus (cls : ascii -> bool) : regex := Rep cls 1 None false.
Definition between (cls : ascii -> bool) (lo hi : nat) : regex :=
  Rep cls lo (Some hi) true.

Fixpoint seq (rs : list regex) : regex :=
  match rs with
  | [] => Rep cls_dot 0 (Some 0) true
  | [r] => r
  | r :: rs' => Seq r (seq rs')
  end.

(** "[A-Z]{2,10}" and "[0-9]{1,3}[A-Z0-9]{0,6}" *)
Definition re_subject : regex := between cls_upper 2 10.
Definition re_number : regex :=
  Seq (between cls_digit 1 3) (between cls_upper_digit 0 6).

(** r"^\s*([A-Z]{2,10})\s+([0-9]{1,3}[A-Z0-9]{0,6})\s*\.\s*(.+?)\s*$" *)
Definition COURSE_HEADER_RE : regex :=
  seq [Bol; star is_space; Grp 1 re_subject; plus is_space; Grp 2 re_number;
       star is_space; Chr (cls_is "."); star is_space;
       Grp 3 (lazy_plus cls_dot); star is_space; Eol].

(** r"^\s*([A-Z]{2,10})\s+([0-9]{1,3}[A-Z0-9]{0,6})\s*$" *)
Definition COURSE_CODE_ONLY_RE : regex :=
  seq [Bol; star is_space; Grp 1 re_subject; plus is_space; Grp 2 re_number;
       star is_space; Eol].

(** The units pattern, written here with blanks between its parts:
    ^ \( ( [^)]+ ) \) \s* ( .* ) $ *)
Definition UNITS_RE : regex :=
  seq [Bol; Chr (cls_is "("); Grp 1 (plus cls_not_rparen); Chr (cls_is ")");
       star is_space; Grp 2 (star cls_dot); Eol].

(** r"([A-Z]{2,10})\s+([0-9]{1,3}[A-Z0-9]{0,6})\s*\.\s*([^()]+?)\s*(\(|$)" *)
Definition HEADER_ANYWHERE_RE : regex :=
  seq [Grp 1 re_subject; plus is_space; Grp 2 re_number; star is_space;
       Chr (cls_is "."); star is_space; Grp 3 (lazy_plus cls_not_paren);
       star is_space; Grp 4 (Alt (Chr (cls_is "(")) Eol)].

(** What a successful run of the matcher has established: [matches r
    cur g cur' g'] when [r] can take the matcher from [cur] with groups
    [g] to [cur'] with groups [g']. *)
Inductive matches : regex -> cursor -> groups -> cursor -> groups -> Prop :=
| M_Bol cur g :
    pos cur = 0 -> matches Bol cur g cur g
| M_Eol cur g :
    at_eol (rest cur) = true -> matches Eol cur g cur g
| M_Chr cls c s p g :
    cls c = true ->
    matches (Chr cls) {| pos := p; rest := c :: s |} g {| pos := S p; rest := s |} g
| M_Rep cls lo hi greedy taken s p g :
    forallb cls taken = true ->
    lo <= List.length taken ->
    (forall h, hi = Some h -> List.length taken <= h) ->
    matches (Rep cls lo hi greedy) {| pos := p; rest := taken ++ s |} g
            {| pos := p + List.length taken; rest := s |} g
| M_Seq r1 r2 cur g cur1 g1 cur2 g2 :
    matches r1 cur g cur1 g1 -> matches r2 cur1 g1 cur2 g2 ->
    matches (Seq r1 r2) cur g cur2 g2
| M_Alt_l r1 r2 cur g cur' g' :
    matches r1 cur g cur' g' -> matches (Alt r1 r2) cur g cur' g'
| M_Alt_r r1 r2 cur g cur' g' :
    matches r2 cur g cur' g' -> matches (Alt r1 r2) cur g cur' g'
| M_Grp i r cur g cur' g' :
    matches r cur g cur' g' ->
    matches (Grp i r) cur g cur'
            ((i, firstn (pos cur' - pos cur) (rest cur)) :: g').

(** How far a greedy repetition goes when nothing makes it give back:
    over the longest run of [cls] at the head of [s], within the bound. *)
Fixpoint run_length (cls : ascii -> bool) (hi : option nat) (n : nat) (s : text) : nat :=
  match s with
  | c :: s' => if cls c && below n hi then S (run_length cls hi (S n) s') else 0
  | [] => 0
  end.

(** ** The parsed document

    What BeautifulSoup hands to the script: a tree of tags and strings.
    Every string has a class: [NavigableString] itself, or one of its
    subclasses.  The html tree builder gives the text of script, style,
    template, rt and rp elements a class of its own.  Of a tag's
    attributes only [id] and [class] are read. *)

Inductive string_class : Type :=
| PlainString             (* NavigableString itself *)
| CData
| CommentString           (* Comment *)
| Script                  (* the text of a script element *)
| Stylesheet              (* the text of a style element *)
| TemplateString          (* the text inside a template element *)
| RubyTextString          (* the text inside an rt element *)
| RubyParenthesisString   (* the text inside an rp element *)
| OtherString.            (* Declaration, Doctype, ProcessingInstruction *)

#[local] Set Warnings "-register-all".

Inductive node : Type :=
| NavigableString (class : string_class) (s : text)
| Tag (name : text) (id : option text) (classes : list text)
      (contents : list node).

(** A node together with what the script reaches from it by
    navigation: [.parents], nearest first, and [.next_siblings]. *)
Record element : Type :=
  { el_node : node; el_parents : list node; el_next_siblings : list node }.

(** [.descendants]: the nodes below [n] in document order, [ps] being
    the ancestors of [n]. *)
Fixpoint descendants_in (ps : list node) (n : node) : list element :=
  match n with
  | NavigableString _ _ => []
  | Tag _ _ _ cs =>
      (fix children (l : list node) : list element :=
         match l with
         | [] => []
         | c :: l' =>
             {| el_node := c; el_parents := n :: ps; el_next_siblings := l' |}
               :: descendants_in (n :: ps) c ++ children l'
         end) cs
  end.

Definition descendants (e : element) : list element :=
  descendants_in (el_parents e) (el_node e).

Definition has_name (name : text) (n : node) : bool :=
  match n with
  | Tag nm _ _ _ => text_eqb nm name
  | NavigableString _ _ => false
  end.

(** [tag.find_all(name)] and [tag.find(name)] *)
Definition find_all (name : text) (e : element) : list element :=
  filter (fun d => has_name name (el_node d)) (descendants e).

Definition find (name : text) (e : element) : option element :=
  hd_error (find_all name e).

(** The two shapes of CSS selector in the script: [name.cls] and
    [name[id$='suffix']]. *)
Inductive selector : Type :=
| SelClass (name cls : text)
| SelIdSuffix (name suffix : text).

Definition selects (sel : selector) (n : node) : bool :=
  match n, sel with
  | Tag nm _ cl _, SelClass name cls =>
      text_eqb nm name && existsb (text_eqb cls) cl
  | Tag nm (Some i) _ _, SelIdSuffix name suffix =>
      text_eqb nm name && nonempty suffix && endswith suffix i
  | _, _ => false
  end.

(** [tag.select(sel)] and [tag.select_one(sel)] *)
Definition select (sel : selector) (e : element) : list element :=
  filter (fun d => selects sel (el_node d)) (descendants e).

Definition select_one (sel : selector) (e : element) : option element :=
  hd_error (select sel e).

(** [tag.interesting_string_types]: the class the tree builder's
    [string_containers] gives for the name of the tag (rt, rp, style,
    script, template), and otherwise [(NavigableString, CData)]. *)
Definition interesting_string_types (name : text) (c : string_class) : bool :=
  if text_eqb name (L "rt") then
    match c with RubyTextString => true | _ => false end
  else if text_eqb name (L "rp") then
    match c with RubyParenthesisString => true | _ => false end
  else if text_eqb name (L "style") then
    match c with Stylesheet => true | _ => false end
  else if text_eqb name (L "script") then
    match c with Script => true | _ => false end
  else if text_eqb name (L "template") then
    match c with TemplateString => true | _ => false end
  else
    match c with PlainString | CData => true | _ => false end.

(** One string of [_all_strings(strip=True, types)]: kept when its
    class is one of [types] and it is not empty once stripped. *)
Definition stripped_string (types : string_class -> bool) (n : node) : list text :=
  match n with
  | NavigableString c s =>
      if types c then if nonempty (strip s) then [strip s] else [] else []
  | Tag _ _ _ _ => []
  end.

(** [get_text(sep, strip=True)].  On a tag: the strings below it whose
    class the tag finds interesting, each stripped, the empty ones
    dropped, joined by [sep].  On a string: the string itself, when its
    class is [NavigableString] or [CData]. *)
Definition get_text (sep : text) (n : node) : text :=
  match n with
  | Tag name _ _ _ =>
      join sep
        (flat_map
           (fun d => stripped_string (interesting_string_types name) (el_node d))
           (descendants_in [] n))
  | NavigableString _ _ =>
      join sep (stripped_string (interesting_string_types []) n)
  end.

(** ** The script *)

Inductive level : Type := LowerDivision | UpperDivision | GraduateDivision.

Definition level_name (l : level) : text :=
  match l with
  | LowerDivision => L "Lower Division"
  | UpperDivision => L "Upper Division"
  | GraduateDivision => L "Graduate Division"
  end.

Fixpoint level_of_parents (parents : list node) : option level :=
  match parents with
  | [] => None
  | parent :: outer =>
      match parent with
      | NavigableString _ _ => level_of_parents outer
      | Tag _ i _ _ =>
          let pid := lower (match i with Some v => v | None => [] end) in
          if contains (L "rptrlowerdivisioncourses") pid then Some LowerDivision
          else if contains (L "rptrupperdivisioncourses") pid then Some UpperDivision
          else if contains (L "rptrgraduatedivisioncourses") pid then Some GraduateDivision
          else level_of_parents outer
      end
  end.

Definition find_level_group (course_div : element) : option text :=
  option_map level_name (level_of_parents (el_parents course_div)).

(** The list of instructors read off [instructors_txt]. *)
Definition instructors_of (instructors_txt : text) : list text :=
  if nonempty instructors_txt then
    if text_eqb (upper instructors_txt) (L "STAFF") then [L "STAFF"]
    else map norm_space
           (filter (fun x => nonempty (norm_space x)) (split ";" instructors_txt))
  else [].

Definition parse_units_and_instructors (course_div : element)
  : option text * list text :=
  match select_one (SelClass (L "span") (L "InstructorUnits")) course_div with
  | None => (None, [])
  | Some span =>
      let txt := norm_space (get_text (L " ") (el_node span)) in
      let '(units, instructors_txt) :=
        match re_match UNITS_RE txt with
        | Some m => (Some (norm_space (group 1 m)), norm_space (group 2 m))
        | None => (None, txt)
        end in
      (units, instructors_of instructors_txt)
  end.

Inductive field : Type :=
| prerequisites_raw
| recommended_preparation_raw
| enrollment_comments_raw
| repeat_comments_raw
| cross_listed_raw.

(** The dictionary [wanted]. *)
Definition wanted (label : text) : option field :=
  if text_eqb label (L "prerequisite") then Some prerequisites_raw
  else if text_eqb label (L "prerequisites") then Some prerequisites_raw
  else if text_eqb label (L "recommended preparation") then Some recommended_preparation_raw
  else if text_eqb label (L "enrollment comments") then Some enrollment_comments_raw
  else if text_eqb label (L "repeat comments") then Some repeat_comments_raw
  else if text_eqb label (L "cross-listed") then Some cross_listed_raw
  else if text_eqb label (L "crosslisted") then Some cross_listed_raw
  else None.

(** The dictionary [out]: its five keys are fixed. *)
Record labeled : Type :=
  { l_prerequisites : option text;
    l_recommended_preparation : option text;
    l_enrollment_comments : option text;
    l_repeat_comments : option text;
    l_cross_listed : option text }.

Definition no_labels : labeled :=
  {| l_prerequisites := None; l_recommended_preparation := None;
     l_enrollment_comments := None; l_repeat_comments := None;
     l_cross_listed := None |}.

Definition get_field (f : field) (out : labeled) : option text :=
  match f with
  | prerequisites_raw => l_prerequisites out
  | recommended_preparation_raw => l_recommended_preparation out
  | enrollment_comments_raw => l_enrollment_comments out
  | repeat_comments_raw => l_repeat_comments out
  | cross_listed_raw => l_cross_listed out
  end.

Definition set_field (f : field) (v : text) (out : labeled) : labeled :=
  match f with
  | prerequisites_raw =>
      {| l_prerequisites := Some v;
         l_recommended_preparation := l_recommended_preparation out;
         l_enrollment_comments := l_enrollment_comments out;
         l_repeat_comments := l_repeat_comments out;
         l_cross_listed := l_cross_listed out |}
  | recommended_preparation_raw =>
      {| l_prerequisites := l_prerequisites out;
         l_recommended_preparation := Some v;
         l_enrollment_comments := l_enrollment_comments out;
         l_repeat_comments := l_repeat_comments out;
         l_cross_listed := l_cross_listed out |}
  | enrollment_comments_raw =>
      {| l_prerequisites := l_prerequisites out;
         l_recommended_preparation := l_recommended_preparation out;
         l_enrollment_comments := Some v;
         l_repeat_comments := l_repeat_comments out;
         l_cross_listed := l_cross_listed out |}
  | repeat_comments_raw =>
      {| l_prerequisites := l_prerequisites out;
         l_recommended_preparation := l_recommended_preparation out;
         l_enrollment_comments := l_enrollment_comments out;
         l_repeat_comments := Some v;
         l_cross_listed := l_cross_listed out |}
  | cross_listed_raw =>
      {| l_prerequisites := l_prerequisites out;
         l_recommended_preparation := l_recommended_preparation out;
         l_enrollment_comments := l_enrollment_comments out;
         l_repeat_comments := l_repeat_comments out;
         l_cross_listed := Some v |}
  end.

(** The inner loop over [strong.next_siblings], up to its [break]. *)
Fixpoint sibling_parts (siblings : list node) : list text :=
  match siblings with
  | [] => []
  | sib :: later =>
      match sib with
      | Tag name _ _ _ =>
          if text_eqb name (L "strong") then []
          else if text_eqb name (L "br") then []
          else norm_space (get_text (L " ") sib) :: sibling_parts later
      | NavigableString _ s => norm_space s :: sibling_parts later
      end
  end.

Definition label_of (strong : element) : text :=
  lower (rstrip_char ":" (norm_space (get_text (L " ") (el_node strong)))).

Definition label_value (strong : element) : text :=
  norm_space (join (L " ") (filter nonempty (sibling_parts (el_next_siblings strong)))).

(** One turn of the loop over the [strong] elements. *)
Definition labeled_step (out : labeled) (strong : element) : labeled :=
  match wanted (label_of strong) with
  | None => out
  | Some key =>
      let val := label_value strong in
      if nonempty val then set_field key val out else out
  end.

Definition extract_labeled_fields (course_div : element) : labeled :=
  fold_left labeled_step (find_all (L "strong") course_div) no_labels.

(** The three groups of a header match: [(m.group(1), m.group(2),
    norm_space(m.group(3)))]. *)
Definition header_of_match (m : groups) : text * text * text :=
  (group 1 m, group 2 m, norm_space (group 3 m)).

Definition header := (text * text * text)%type.

(** Strategy 1: the text of [span.CourseIdAndTitle]. *)
Definition header_from_id_title (course_div : element) : option header :=
  match select_one (SelClass (L "span") (L "CourseIdAndTitle")) course_div with
  | None => None
  | Some id_title =>
      let txt := norm_space (get_text (L " ") (el_node id_title)) in
      match re_match COURSE_HEADER_RE txt with
      | Some m => Some (header_of_match m)
      | None =>
          if contains (L ".") txt then
            let '(left_part, right_part) := split1 "." txt in
            let left_part := norm_space left_part in
            let title := norm_space right_part in
            match re_match COURSE_CODE_ONLY_RE left_part with
            | Some m2 =>
                if nonempty title then Some (group 1 m2, group 2 m2, title)
                else None
            | None => None
            end
          else None
      end
  end.

(** Strategy 2: the first [b] of the block. *)
Definition header_from_first_b (course_div : element) : option header :=
  match find (L "b") course_div with
  | None => None
  | Some b =>
      let btxt := norm_space (get_text (L " ") (el_node b)) in
      match re_match COURSE_HEADER_RE btxt with
      | Some m => Some (header_of_match m)
      | None => None
      end
  end.

(** Strategy 3: the first match anywhere in the text of the block. *)
Definition header_from_full_text (course_div : element) : option header :=
  let full_txt := norm_space (get_text (L " ") (el_node course_div)) in
  match re_search HEADER_ANYWHERE_RE full_txt with
  | Some m_any =>
      let subj := group 1 m_any in
      let num := group 2 m_any in
      let title := norm_space (group 3 m_any) in
      if nonempty title then Some (subj, num, title) else None
  | None => None
  end.

Definition extract_course_header (course_div : element) : option header :=
  match header_from_id_title course_div with
  | Some h => Some h
  | None =>
      match header_from_first_b course_div with
      | Some h => Some h
      | None => header_from_full_text course_div
      end
  end.

(** The test that drops a [div] made of labels. *)
Definition is_label_text (txt : text) : bool :=
  contains (L "Prerequisite:") txt || contains (L "Recommended Preparation:") txt.

(** One turn of the loop of [extract_description]. *)
Definition description_step (best_text : text) (d : element) : text :=
  let txt := norm_space (get_text (L " ") (el_node d)) in
  if negb (nonempty txt) then best_text
  else if is_label_text txt then best_text
  else if len best_text <? len txt then txt
  else best_text.

Definition description_container (course_div : element) : element :=
  match select_one (SelIdSuffix (L "div") (L "nonchildcourseContainer")) course_div with
  | Some container => container
  | None => course_div
  end.

Definition extract_description (course_div : element) : text :=
  fold_left description_step
    (find_all (L "div") (description_container course_div)) [].

(** The dictionary [parse_course] returns. *)
Record course : Type :=
  { subject : text;
    number : text;
    code : text;
    title : text;
    units : option text;
    level_group : option text;
    instructors : list text;
    c_prerequisites_raw : option text;
    c_recommended_preparation_raw : option text;
    c_enrollment_comments_raw : option text;
    c_repeat_comments_raw : option text;
    c_cross_listed_raw : option text;
    description : text;
    source_url : text }.

Definition parse_course (course_div : element) (url : text) : option course :=
  match extract_course_header course_div with
  | None => None
  | Some (subject, number, title) =>
      let '(units, instructors) := parse_units_and_instructors course_div in
      let level_group := find_level_group course_div in
      let labeled := extract_labeled_fields course_div in
      let description := extract_description course_div in
      Some {| subject := subject;
              number := number;
              code := subject ++ L " " ++ number;
              title := title;
              units := units;
              level_group := level_group;
              instructors := instructors;
              c_prerequisites_raw := get_field prerequisites_raw labeled;
              c_recommended_preparation_raw := get_field recommended_preparation_raw labeled;
              c_enrollment_comments_raw := get_field enrollment_comments_raw labeled;
              c_repeat_comments_raw := get_field repeat_comments_raw labeled;
              c_cross_listed_raw := get_field cross_listed_raw labeled;
              description := description;
              source_url := url |}
  end.

(** ** Floating point

    A Python float is an IEEE 754 binary64 number.  Every finite one is
    a whole number of units of 2^-1074, the smallest positive float, and
    is kept as its sign and its magnitude in these units: 1.0 is 2^1074
    units, the largest float is 2^2098 - 2^2045 units, and -0.0 is the
    magnitude zero with the sign set.  The result of a division, of a
    product and of the conversion of an integer is the float nearest to
    the exact value, the even one of two that are equally near. *)

Inductive arithmetic_error : Type := ZeroDivisionError | OverflowError.

Record finite : Type := { negative : bool; magnitude : Z }.

Inductive float : Type :=
| Fin (x : finite)
| Inf (negative : bool).

Section Floats.

Open Scope Z_scope.

(** [n / d] rounded to the nearest integer, to the even one on a tie. *)
Definition round_half_even (n d : Z) : Z :=
  let q := n / d in
  let r := n mod d in
  if 2 * r <? d then q
  else if d <? 2 * r then q + 1
  else if Z.even q then q else q + 1.

(** The distance between the floats around the magnitude [m]:
    53 significant bits, and never less than one unit. *)
Definition spacing (m : Z) : Z := 2 ^ Z.max (Z.log2 m - 52) 0.

(** The magnitude of the float nearest to [n / d] units. *)
Definition round_units (n d : Z) : Z :=
  let s := spacing (n / d) in
  round_half_even n (d * s) * s.

Definition one_in_units : Z := 2 ^ 1074.

(** A magnitude of 2^1024, that is 2^2098 units, or more is no float. *)
Definition overflows (m : Z) : bool := 2 ^ 2098 <=? m.

(** [float(i)], which Python applies to an integer operand of a float
    operation: "int too large to convert to float". *)
Definition float_of_int (i : Z) : arithmetic_error + finite :=
  let m := round_units (Z.abs i * one_in_units) 1 in
  if overflows m then inl OverflowError
  else inr {| negative := i <? 0; magnitude := m |}.

(** [a / b] on integers: "division by zero", or "integer division
    result too large for a float". *)
Definition true_div (a b : Z) : arithmetic_error + finite :=
  if b =? 0 then inl ZeroDivisionError
  else
    let m := round_units (Z.abs a * one_in_units) (Z.abs b) in
    if overflows m then inl OverflowError
    else inr {| negative := xorb (a <? 0) (b <? 0); magnitude := m |}.

(** [x * y] on floats; it does not raise, a product too large is an
    infinity. *)
Definition float_mul (x y : finite) : float :=
  let m := round_units (magnitude x * magnitude y) one_in_units in
  let s := xorb (negative x) (negative y) in
  if overflows m then Inf s else Fin {| negative := s; magnitude := m |}.

(** [int(x)]: towards zero; "cannot convert float infinity to integer". *)
Definition int_of_float (x : float) : arithmetic_error + Z :=
  match x with
  | Fin f =>
      let i := magnitude f / one_in_units in
      inr (if negative f then - i else i)
  | Inf _ => inl OverflowError
  end.

Definition signed_magnitude (x : finite) : Z :=
  if negative x then - magnitude x else magnitude x.

(** [x < y] *)
Definition float_lt (x y : finite) : bool := signed_magnitude x <? signed_magnitude y.

(** [min(x, y)]: the second when it is less than the first, else the
    first. *)
Definition float_min (x y : finite) : finite := if float_lt y x then y else x.

(** [x <= y], infinities included. *)
Definition float_le (x y : float) : bool :=
  match x, y with
  | Inf true, _ => true
  | _, Inf false => true
  | Fin a, Fin b => signed_magnitude a <=? signed_magnitude b
  | _, _ => false
  end.

(** The literals [1.0] and [100]; the latter is converted exactly. *)
Definition float_1 : finite := {| negative := false; magnitude := one_in_units |}.
Definition float_100 : finite := {| negative := false; magnitude := 100 * one_in_units |}.

(** A magnitude that is that of a float: a multiple of the spacing at
    its size. *)
Definition representable (b : Z) : Prop := (spacing b | b).

End Floats.

Arguments one_in_units : simpl never.

(** ** The progress bar

    Python integers are [Z].  [update] raises when the division does
    ([ZeroDivisionError], [OverflowError]), when [width] is too large
    for a float, and when the product with it is an infinity.  The
    memory the bar takes is not modelled. *)

Record ProgressBar : Type := { total : Z; width : Z; current : Z }.

Definition ProgressBar_init (total : Z) (width : Z) : ProgressBar :=
  {| total := Z.max total 1; width := width; current := 0 |}.

(** What [update] writes: "Parsed: current/total [bar] percent%", the
    bar being [filled] full cells followed by [blank] empty ones; a
    string repeated a negative number of times is empty. *)
Record progress_line : Type :=
  { shown_current : Z; shown_total : Z; filled : nat; blank : nat; percent : float }.

Definition update (self : ProgressBar) (inc : Z)
  : arithmetic_error + ProgressBar * progress_line :=
  let self' := {| total := total self; width := width self;
                  current := (current self + inc)%Z |} in
  match true_div (current self') (total self') with
  | inl e => inl e
  | inr q =>
      let ratio := float_min q float_1 in
      match float_of_int (width self') with
      | inl e => inl e
      | inr w =>
          match int_of_float (float_mul ratio w) with
          | inl e => inl e
          | inr filled =>
              inr (self',
                   {| shown_current := current self';
                      shown_total := total self';
                      filled := Z.to_nat filled;
                      blank := Z.to_nat (width self' - filled)%Z;
                      percent := float_mul ratio float_100 |})
          end
      end
  end.

(** A sequence of calls [bar.update(inc)], with the lines written. *)
Fixpoint updates (self : ProgressBar) (incs : list Z)
  : arithmetic_error + ProgressBar * list progress_line :=
  match incs with
  | [] => inr (self, [])
  | inc :: incs' =>
      match update self inc with
      | inl e => inl e
      | inr (self', line) =>
          match updates self' incs' with
          | inl e => inl e
          | inr (self'', lines) => inr (self'', line :: lines)
          end
      end
  end.

(** ** The driver

    [requests] and the HTML parser are libraries: what they return is
    not decided by the script, so the driver is written over them.
    [requests_get url] is [requests.get(url, headers=UA, timeout=30)],
    which raises or returns a response; [raise_for_status] raises or
    not on that response; [BeautifulSoup html] is
    [BeautifulSoup(html, "html.parser")]. *)

Definition URLS : list text :=
  [ L "https://my.sa.ucsb.edu/catalog/2022-2023/CollegesDepartments/ls-intro/stats.aspx?DeptTab=Courses";
    L "https://my.sa.ucsb.edu/catalog/2022-2023/CollegesDepartments/ls-intro/econ.aspx?DeptTab=Courses";
    L "https://my.sa.ucsb.edu/catalog/2022-2023/CollegesDepartments/ls-intro/math.aspx?DeptTab=Courses";
    L "https://my.sa.ucsb.edu/catalog/2022-2023/CollegesDepartments/coe/compsci-engr.aspx?DeptTab=Courses";
    L "https://my.sa.ucsb.edu/catalog/2022-2023/CollegesDepartments/coe/ece.aspx?DeptTab=Courses" ].

Definition out_path : text := L "ucsb_2022_2023_courses.json".

(** What the script writes on standard output. *)
Inductive output : Type :=
| Progress (line : progress_line)
| Newline
| Wrote (courses : nat) (path : text)
| Skipped (blocks : Z).

(** The variables of the second pass. *)
Record pass_state : Type :=
  { all_courses : list course;
    skipped : Z;
    bar : ProgressBar;
    stdout : list output }.

Section Driver.

Variable exn : Type.
Variable response : Type.
Variable requests_get : text -> exn + response.
Variable raise_for_status : response -> option exn.
Variable response_text : response -> text.
Variable BeautifulSoup : text -> node.

(** What ends a run: an exception of [requests], or one of [update]. *)
Inductive error : Type :=
| RequestError (e : exn)
| ArithmeticError (e : arithmetic_error).

Definition fetch (url : text) : exn + text :=
  match requests_get url with
  | inl e => inl e
  | inr r =>
      match raise_for_status r with
      | Some e => inl e
      | None => inr (response_text r)
      end
  end.

(** [BeautifulSoup(html, "html.parser").select("div.CourseDisplay")] *)
Definition course_displays (html : text) : list element :=
  select (SelClass (L "div") (L "CourseDisplay"))
    {| el_node := BeautifulSoup html; el_parents := []; el_next_siblings := [] |}.

(** The inner loop of the first pass. *)
Definition count_headers (total_est : Z) (blocks : list element) : Z :=
  fold_left
    (fun n cd =>
       match extract_course_header cd with
       | Some _ => (n + 1)%Z
       | None => n
       end)
    blocks total_est.

(** The first pass; [requested] logs the calls of [fetch]. *)
Fixpoint first_pass (urls requested : list text) (pages : list (text * text))
    (total_est : Z) : (exn + list (text * text) * Z) * list text :=
  match urls with
  | [] => (inr (pages, total_est), requested)
  | url :: urls' =>
      match fetch url with
      | inl e => (inl e, requested ++ [url])
      | inr html =>
          first_pass urls' (requested ++ [url]) (pages ++ [(url, html)])
            (count_headers total_est (course_displays html))
      end
  end.

(** The body of the inner loop of the second pass.  The second
    component is the exception raised, if any. *)
Definition block_step (url : text) (st : pass_state) (cd : element)
  : pass_state * option error :=
  match parse_course cd url with
  | None =>
      ({| all_courses := all_courses st; skipped := (skipped st + 1)%Z;
          bar := bar st; stdout := stdout st |}, None)
  | Some c =>
      let st1 := {| all_courses := all_courses st ++ [c]; skipped := skipped st;
                    bar := bar st; stdout := stdout st |} in
      match update (bar st1) 1 with
      | inl e => (st1, Some (ArithmeticError e))
      | inr (bar', line) =>
          ({| all_courses := all_courses st1; skipped := skipped st1;
              bar := bar'; stdout := stdout st1 ++ [Progress line] |}, None)
      end
  end.

Fixpoint blocks_loop (url : text) (blocks : list element) (st : pass_state)
  : pass_state * option error :=
  match blocks with
  | [] => (st, None)
  | cd :: blocks' =>
      match block_step url st cd with
      | (st', None) => blocks_loop url blocks' st'
      | (st', Some e) => (st', Some e)
      end
  end.

Fixpoint second_pass (pages : list (text * text)) (st : pass_state)
  : pass_state * option error :=
  match pages with
  | [] => (st, None)
  | (url, html) :: pages' =>
      match blocks_loop url (course_displays html) st with
      | (st', None) => second_pass pages' st'
      | (st', Some e) => (st', Some e)
      end
  end.

(** [bar.finish()] *)
Definition finish (st : pass_state) : pass_state * option error :=
  match update (bar st) 0 with
  | inl e => (st, Some (ArithmeticError e))
  | inr (bar', line) =>
      ({| all_courses := all_courses st; skipped := skipped st; bar := bar';
          stdout := stdout st ++ [Progress line; Newline] |}, None)
  end.

(** What a run leaves behind: the exception it ended with, if any,
    the URLs requested, the output, and the file written, if any. *)
Record run_result : Type :=
  { raised : option error;
    requested_urls : list text;
    printed : list output;
    written : option (text * list course);
    estimated : option Z }.

Definition main_with (urls : list text) : run_result :=
  match first_pass urls [] [] 0%Z with
  | (inl e, requested) =>
      {| raised := Some (RequestError e); requested_urls := requested;
         printed := []; written := None; estimated := None |}
  | (inr (pages, total_est), requested) =>
      let st0 := {| all_courses := []; skipped := 0%Z;
                    bar := ProgressBar_init total_est 30; stdout := [] |} in
      match second_pass pages st0 with
      | (st, Some e) =>
          {| raised := Some e; requested_urls := requested;
             printed := stdout st; written := None;
             estimated := Some total_est |}
      | (st, None) =>
          match finish st with
          | (st', Some e) =>
              {| raised := Some e; requested_urls := requested;
                 printed := stdout st'; written := None;
                 estimated := Some total_est |}
          | (st', None) =>
              {| raised := None; requested_urls := requested;
                 printed := stdout st' ++
                            [Wrote (List.length (all_courses st')) out_path;
                             Skipped (skipped st')];
                 written := Some (out_path, all_courses st');
                 estimated := Some total_est |}
          end
      end
  end.

Definition main : run_result := main_with URLS.

End Driver.

Arguments RequestError {exn} e.
Arguments ArithmeticError {exn} e.

(** ** Notions used in the statements *)

(** The normalized text of an element. *)
Definition element_text (d : element) : text :=
  norm_space (get_text (L " ") (el_node d)).

(** The texts [extract_description] chooses from: those of the [div]
    elements below the container that are not empty and that the label
    test does not discard, in document order. *)
Definition description_candidates (course_div : element) : list text :=
  filter (fun txt => nonempty txt && negb (is_label_text txt))
    (map element_text (find_all (L "div") (description_container course_div))).

(** Keeping the longer of two texts, the first on a tie. *)
Definition longer (best_text txt : text) : text :=
  if len best_text <? len txt then txt else best_text.

Arguments fetch {exn response}.
Arguments first_pass {exn response}.
Arguments block_step {exn}.
Arguments blocks_loop {exn}.
Arguments second_pass {exn}.
Arguments finish {exn}.
Arguments main_with {exn response}.
Arguments main {exn response}.
Arguments raised {exn}.
Arguments requested_urls {exn}.
Arguments printed {exn}.
Arguments written {exn}.
Arguments estimated {exn}.



(** The count the first pass reaches over pages already fetched. *)
Definition count_pages (BeautifulSoup : text -> node) (total_est : Z)
    (pages : list (text * text)) : Z :=
  fold_left
    (fun n page => count_headers n (course_displays BeautifulSoup (snd page)))
    pages total_est.

(** A run over [t] stops at the end of [t] when what follows is not of
    the class. *)
Definition stops_run (cls : ascii -> bool) (s : text) : Prop :=
  match s with
  | [] => True
  | c :: _ => cls c = false
  end.

(** [takes r t s' gs]: run on [t ++ s'], the first thing [r] tries is to
    take [t], updating the groups by [gs]; if what follows the pattern
    succeeds from there, that is the match. *)
Definition takes (r : regex) (t s' : text) (gs : groups -> groups) : Prop :=
  forall (A : Type) (p : nat) (g : groups) (k : cursor -> groups -> option A) (x : A),
    k {| pos := p + List.length t; rest := s' |} (gs g) = Some x ->
    run r {| pos := p; rest := t ++ s' |} g k = Some x.

(** The subject of a course: 2 to 10 upper-case letters. *)
Definition is_subject (s : text) : bool :=
  forallb cls_upper s && (2 <=? len s) && (len s <=? 10).

(** The number of a course: 1 to 3 digits, then at most 6 upper-case
    letters or digits. *)
Definition is_number (s : text) : bool :=
  existsb
    (fun k =>
       (k <=? len s) && forallb cls_digit (firstn k s) &&
       forallb cls_upper_digit (skipn k s) && (len s - k <=? 6))
    [1; 2; 3].

(** Subject and number in the words of the specification: upper-case
    letters, and alphanumerics, of which the characters below 256 have
    those beyond A-Z, a-z and 0-9 that [str.isupper] and [str.isalnum]
    accept. *)
Definition is_uppercase_letter (c : ascii) : bool :=
  in_range 65 90 c || in_range 192 214 c || in_range 216 222 c.

Definition is_alphanumeric (c : ascii) : bool :=
  in_range 48 57 c || in_range 65 90 c || in_range 97 122 c ||
  (ord c =? 170) || in_range 178 179 c || (ord c =? 181) ||
  in_range 185 186 c || in_range 188 190 c ||
  in_range 192 214 c || in_range 216 246 c || in_range 248 255 c.

Definition is_subject_as_stated (s : text) : bool :=
  forallb is_uppercase_letter s && (2 <=? len s) && (len s <=? 10).

Definition is_number_as_stated (s : text) : bool :=
  existsb
    (fun k =>
       (k <=? len s) && forallb cls_digit (firstn k s) &&
       forallb is_alphanumeric (skipn k s) && (len s - k <=? 6))
    [1; 2; 3].

(** White space in [s] is made of single blanks; [prev] tells that a
    blank precedes [s]. *)
Fixpoint single_spaced (prev : bool) (s : text) : bool :=
  match s with
  | [] => true
  | c :: s' =>
      if is_space c
      then Ascii.eqb c " " && negb prev && single_spaced true s'
      else single_spaced false s'
  end.

(** The text up to the first [ch] and the text after it. *)
Fixpoint break_at (ch : ascii) (s : text) : option (text * text) :=
  match s with
  | [] => None
  | c :: s' =>
      if Ascii.eqb c ch then Some ([], s')
      else match break_at ch s' with
           | Some (a, b) => Some (c :: a, b)
           | None => None
           end
  end.

(** A parenthesized group at the head of a text: its content and what
    follows the closing parenthesis. *)
Definition leading_group (txt : text) : option (text * text) :=
  match txt with
  | c :: s => if Ascii.eqb c "(" then break_at ")" s else None
  | [] => None
  end.

(** The instructors of an instructor text, in the words of the
    specification: "STAFF" in any case gives ["STAFF"]; any other text
    is split on semicolons, each piece trimmed, the empty ones dropped. *)
Definition instructors_as_stated (instructors_txt : text) : list text :=
  if nonempty instructors_txt then
    if text_eqb (upper instructors_txt) (L "STAFF") then [L "STAFF"]
    else filter nonempty (map strip (split ";" instructors_txt))
  else [].

(** Units and instructors of the normalized text of the span, in the
    words of the specification: the content of a leading parenthesized
    group is the units string and the remainder is the instructor text;
    without such a group the whole text is the instructor text. *)
Definition units_and_instructors_as_stated (txt : text) : option text * list text :=
  match leading_group txt with
  | Some (content, remainder) =>
      (Some content, instructors_as_stated (strip remainder))
  | None => (None, instructors_as_stated txt)
  end.

(** What the script does: the group counts when its content is not
    empty, and the units string is the content trimmed. *)
Definition units_and_instructors_of_text (txt : text) : option text * list text :=
  match leading_group txt with
  | Some (content, remainder) =>
      if nonempty content
      then (Some (strip content), instructors_as_stated (strip remainder))
      else (None, instructors_as_stated txt)
  | None => (None, instructors_as_stated txt)
  end.

(** The labels of each field. *)
Definition labels_of (f : field) : list text :=
  match f with
  | prerequisites_raw => [L "prerequisite"; L "prerequisites"]
  | recommended_preparation_raw => [L "recommended preparation"]
  | enrollment_comments_raw => [L "enrollment comments"]
  | repeat_comments_raw => [L "repeat comments"]
  | cross_listed_raw => [L "cross-listed"; L "crosslisted"]
  end.

(** The element that ends the text of a label: [strong] or [br]. *)
Definition is_break (n : node) : bool :=
  has_name (L "strong") n || has_name (L "br") n.

(** The siblings before the first break. *)
Fixpoint until_break (siblings : list node) : list node :=
  match siblings with
  | [] => []
  | sib :: later => if is_break sib then [] else sib :: until_break later
  end.

(** The normalized text of a node: of a tag, its text; of a string,
    the string. *)
Definition node_text (n : node) : text :=
  match n with
  | Tag _ _ _ _ => norm_space (get_text (L " ") n)
  | NavigableString _ s => norm_space s
  end.

(** A [strong] element that is a label of [f] followed by some text. *)
Definition labels_field (f : field) (strong : element) : bool :=
  existsb (text_eqb (label_of strong)) (labels_of f) && nonempty (label_value strong).

Fixpoint last_error {A : Type} (l : list A) : option A :=
  match l with
  | [] => None
  | x :: l' => match last_error l' with
               | Some y => Some y
               | None => Some x
               end
  end.

(** The label an element bears: its normalized text without the colons
    that end it, in lower case. *)
Definition stated_label (d : element) : text :=
  lower (rstrip_char ":" (element_text d)).

(** The text that follows a label: that of its following siblings up to
    the first [strong] or [br], the empty ones left out, joined by
    blanks and normalized. *)
Definition stated_value (d : element) : text :=
  norm_space
    (join (L " ")
       (filter nonempty (map node_text (until_break (el_next_siblings d))))).

(** An element that bears a label of [f] and that some text follows. *)
Definition is_label_of (f : field) (d : element) : bool :=
  existsb (text_eqb (stated_label d)) (labels_of f) && nonempty (stated_value d).

(** Labeled fields in the words of the specification.  The label
    elements are the bold or emphasized ones: [strong], [b], [em] and
    [i]; the text of a label ends at the next of them or at a line
    break; and the text collected is stored under the name of the field,
    whatever it is. *)
Definition is_emphasis (n : node) : bool :=
  has_name (L "strong") n || has_name (L "b") n ||
  has_name (L "em") n || has_name (L "i") n.

Fixpoint until_emphasis (siblings : list node) : list node :=
  match siblings with
  | [] => []
  | sib :: later =>
      if is_emphasis sib || has_name (L "br") sib then []
      else sib :: until_emphasis later
  end.

Definition value_as_stated (d : element) : text :=
  norm_space
    (join (L " ")
       (filter nonempty (map node_text (until_emphasis (el_next_siblings d))))).

Definition labeled_step_as_stated (out : labeled) (d : element) : labeled :=
  match wanted (stated_label d) with
  | None => out
  | Some key => set_field key (value_as_stated d) out
  end.

Definition labeled_fields_as_stated (course_div : element) : labeled :=
  fold_left labeled_step_as_stated
    (filter (fun d => is_emphasis (el_node d)) (descendants course_div))
    no_labels.

(** The inner container that [extract_description] prefers: the first
    [div] below the block whose id ends with "nonchildcourseContainer",
    and the block itself when there is none. *)
Definition is_inner_container (n : node) : bool :=
  match n with
  | Tag name (Some i) _ _ =>
      text_eqb name (L "div") && endswith (L "nonchildcourseContainer") i
  | _ => false
  end.

Definition preferred_container (course_div : element) : element :=
  match List.find (fun d => is_inner_container (el_node d)) (descendants course_div) with
  | Some container => container
  | None => course_div
  end.

(** A text that the label filter discards. *)
Definition has_label (txt : text) : bool :=
  contains (L "Prerequisite:") txt || contains (L "Recommended Preparation:") txt.

(** The texts to choose from, when the sub-elements [examined] of the
    container are looked at: their normalized texts, in document order,
    that are not empty and that the label filter keeps. *)
Definition candidates_among (examined : node -> bool) (course_div : element)
  : list text :=
  filter (fun txt => nonempty txt && negb (has_label txt))
    (map element_text
       (filter (fun d => examined (el_node d))
          (descendants (preferred_container course_div)))).

(** The description in the words of the specification: every nested
    sub-element is examined, whatever its name. *)
Definition is_tag (n : node) : bool :=
  match n with
  | Tag _ _ _ _ => true
  | NavigableString _ _ => false
  end.

Definition description_as_stated (course_div : element) : text :=
  fold_left longer (candidates_among is_tag course_div) [].

Definition field_eqb (a b : field) : bool :=
  match a, b with
  | prerequisites_raw, prerequisites_raw
  | recommended_preparation_raw, recommended_preparation_raw
  | enrollment_comments_raw, enrollment_comments_raw
  | repeat_comments_raw, repeat_comments_raw
  | cross_listed_raw, cross_listed_raw => true
  | _, _ => false
  end.

(** ** Sample documents *)

Definition plain_string (s : string) : node := NavigableString PlainString (L s).

Definition tag (name : string) (contents : list node) : node :=
  Tag (L name) None [] contents.

(** A course as the catalog shows it. *)
Definition sample_course : node :=
  Tag (L "div") None [L "CourseDisplay"]
    [ Tag (L "span") None [L "CourseIdAndTitle"]
        [plain_string "XYZ 100. Intro to Things"];
      Tag (L "span") None [L "InstructorUnits"] [plain_string "(4) STAFF"];
      Tag (L "div") (Some (L "ctl00_nonchildcourseContainer")) []
        [ tag "div"
            [ tag "i"
                [ tag "strong" [plain_string "Prerequisite:"];
                  plain_string " XYZ 10 with a grade of C or better. ";
                  tag "br" [] ] ];
          tag "div" [plain_string "An introduction to things."] ] ].

(** A block of the same class that holds no course. *)
Definition sample_notice : node :=
  Tag (L "div") None [L "CourseDisplay"] [plain_string "no courses offered."].

Definition sample_document : node :=
  tag "[document]"
    [ tag "html"
        [ tag "body"
            [ Tag (L "div") (Some (L "ctl00_rptrLowerDivisionCourses")) []
                [sample_course; sample_notice] ] ] ].

Definition sample_parser (html : text) : node := sample_document.

Definition sample_blocks : list element := course_displays sample_parser [].

Definition sample_course_block : element :=
  nth 0 sample_blocks {| el_node := sample_notice; el_parents := []; el_next_siblings := [] |}.

Definition sample_notice_block : element :=
  nth 1 sample_blocks {| el_node := sample_notice; el_parents := []; el_next_siblings := [] |}.

(** A network on which every request succeeds, and one on which the
    second configured URL is answered by an error. *)
Definition network_up (url : text) : nat + text := inr (L "<html></html>").

Definition network_down_at_second (url : text) : nat + text :=
  if text_eqb url (nth 1 URLS []) then inl 503 else inr (L "<html></html>").

(** A server that answers the second configured URL with the status
    503, and a [raise_for_status] that raises on the statuses from 400
    on; a response is a status and a body. *)
Definition server_error_at_second (url : text) : nat + nat * text :=
  if text_eqb url (nth 1 URLS []) then inr (503, L "Service Unavailable")
  else inr (200, L "<html></html>").

Definition raise_for_error_status (r : nat * text) : option nat :=
  if 400 <=? fst r then Some (fst r) else None.

Definition status_ok (r : text) : option nat := None.

Definition body_of (r : text) : text := r.

Definition sample_state : pass_state :=
  {| all_courses := []; skipped := 0%Z; bar := ProgressBar_init 1 30; stdout := [] |}.

(** A block that holds nothing but an instructor/units span. *)
Definition units_block (s : string) : element :=
  {| el_node :=
       Tag (L "div") None [L "CourseDisplay"]
         [Tag (L "span") None [L "InstructorUnits"] [plain_string s]];
     el_parents := [];
     el_next_siblings := [] |}.

(** A block whose header is [header]. *)
Definition header_block (header : text) : element :=
  {| el_node :=
       Tag (L "div") None [L "CourseDisplay"]
         [Tag (L "span") None [L "CourseIdAndTitle"]
            [NavigableString PlainString header]];
     el_parents := [];
     el_next_siblings := [] |}.

(** A header with a lower-case letter in the number, and one whose
    subject begins with an upper-case letter that is not of A-Z, U+00C9. *)
Definition lower_case_number_header : text := L "XYZ 100a. Intro to Things".

Definition accented_subject_header : text :=
  ascii_of_nat 201 :: L "CO 100. Intro to Things".

(** A block in which a paragraph is longer than any [div]. *)
Definition paragraph_block : element :=
  {| el_node :=
       Tag (L "div") None [L "CourseDisplay"]
         [ tag "div" [plain_string "Things."];
           tag "p" [plain_string "An introduction to things."] ];
     el_parents := [];
     el_next_siblings := [] |}.

(** A block whose label is in bold, and one with an emphasized word in
    the text that follows its label. *)
Definition bold_label_block : element :=
  {| el_node :=
       Tag (L "div") None [L "CourseDisplay"]
         [tag "b" [plain_string "Prerequisite:"]; plain_string " XYZ 10."];
     el_parents := [];
     el_next_siblings := [] |}.

Definition emphasis_in_value_block : element :=
  {| el_node :=
       Tag (L "div") None [L "CourseDisplay"]
         [ tag "strong" [plain_string "Prerequisite:"];
           plain_string " XYZ 10 ";
           tag "i" [plain_string "or"];
           plain_string " consent.";
           tag "br" [] ];
     el_parents := [];
     el_next_siblings := [] |}.

(** A block with a script after its label. *)
Definition script_after_label_block : element :=
  {| el_node :=
       Tag (L "div") None [L "CourseDisplay"]
         [ tag "strong" [plain_string "Prerequisite:"];
           tag "script" [NavigableString Script (L "var x=1;")] ];
     el_parents := [];
     el_next_siblings := [] |}.

(** A block with a label that no text follows. *)
Definition bare_label_block : element :=
  {| el_node :=
       Tag (L "div") None [L "CourseDisplay"]
         [tag "strong" [plain_string "Prerequisite:"]; tag "br" []];
     el_parents := [];
     el_next_siblings := [] |}.

(** The characters of a text that are not white space. *)
Definition visible (s : text) : text := filter (fun c => negb (is_space c)) s.

(** The level that the id of one ancestor names, if any: the three
    tests of the loop of [find_level_group], in their order. *)
Definition marker_of (parent : node) : option level :=
  match parent with
  | NavigableString _ _ => None
  | Tag _ i _ _ =>
      let pid := lower (match i with Some v => v | None => [] end) in
      if contains (L "rptrlowerdivisioncourses") pid then Some LowerDivision
      else if contains (L "rptrupperdivisioncourses") pid then Some UpperDivision
      else if contains (L "rptrgraduatedivisioncourses") pid then Some GraduateDivision
      else None
  end.

(** A course block below an upper-division container, itself below a
    lower-division one: the nearest container decides. *)
Definition nested_levels_block : element :=
  {| el_node := sample_course;
     el_parents :=
       [ tag "table" [];
         Tag (L "div") (Some (L "ctl00_RptrUpperDivisionCourses_ctl01")) [] [];
         Tag (L "div") (Some (L "ctl00_rptrLowerDivisionCourses")) [] [];
         tag "[document]" [] ];
     el_next_siblings := [] |}.

(** A block without markup for the header: only the text shows it. *)
Definition plain_text_block : element :=
  {| el_node :=
       Tag (L "div") None [L "CourseDisplay"]
         [plain_string "PSTAT 210. Measure Theory (4) STAFF. Prerequisite: PSTAT 120A."];
     el_parents := [];
     el_next_siblings := [] |}.

(** The records of the blocks of one page, in document order. *)
Definition records_of_blocks (url : text) (blocks : list element) : list course :=
  flat_map
    (fun cd => match parse_course cd url with Some c => [c] | None => [] end)
    blocks.

(** The blocks of one page that give no record. *)
Definition skipped_blocks (url : text) (blocks : list element) : list element :=
  filter
    (fun cd => match parse_course cd url with Some _ => false | None => true end)
    blocks.

(** The progress lines among what is printed. *)
Definition progress_lines (out : list output) : list progress_line :=
  flat_map (fun o => match o with Progress line => [line] | _ => [] end) out.

(** The blocks of the page behind [url], when its fetch succeeds. *)
Definition blocks_at {exn response : Type}
    (requests_get : text -> exn + response)
    (raise_for_status : response -> option exn)
    (response_text : response -> text)
    (BeautifulSoup : text -> node) (url : text) : list element :=
  match fetch requests_get raise_for_status response_text url with
  | inr html => course_displays BeautifulSoup html
  | inl _ => []
  end.

(** The records, and the blocks without record, of a list of pages. *)
Definition records_of_pages (BeautifulSoup : text -> node)
    (pages : list (text * text)) : list course :=
  flat_map
    (fun page => records_of_blocks (fst page) (course_displays BeautifulSoup (snd page)))
    pages.

Definition skipped_of_pages (BeautifulSoup : text -> node)
    (pages : list (text * text)) : list element :=
  flat_map
    (fun page => skipped_blocks (fst page) (course_displays BeautifulSoup (snd page)))
    pages.

(** * Properties *)

(** ** Strings *)

Lemma text_eqb_eq (a b : text) : text_eqb a b = true <-> a = b.
Proof.
  unfold text_eqb. destruct (list_eq_dec ascii_dec a b); split; congruence.
Qed.

Lemma text_eqb_refl (a : text) : text_eqb a a = true.
Proof. now apply text_eqb_eq. Qed.

Lemma nonempty_true (s : text) : nonempty s = true <-> s <> [].
Proof. destruct s; simpl; split; congruence. Qed.

Lemma nonempty_false (s : text) : nonempty s = false <-> s = [].
Proof. destruct s; simpl; split; congruence. Qed.

Lemma newline_is_space (c : ascii) : cls_dot c = false -> is_space c = true.
Proof.
  unfold cls_dot, is_space, in_range. intros H.
  apply negb_false_iff, Nat.eqb_eq in H. rewrite H. reflexivity.
Qed.

Lemma lstrip_spaces (w s : text) :
  forallb is_space w = true -> lstrip (w ++ s) = lstrip s.
Proof.
  induction w as [|c w IH]; simpl; [reflexivity|].
  intros H. apply andb_true_iff in H as [Hc Hw]. rewrite Hc. auto.
Qed.

Lemma lstrip_split (s : text) :
  exists w, s = w ++ lstrip s /\ forallb is_space w = true.
Proof.
  induction s as [|c s [w [E Hw]]]; simpl.
  - exists []. split; reflexivity.
  - destruct (is_space c) eqn:Hc.
    + exists (c :: w). simpl. rewrite Hc, Hw. split; [now f_equal | reflexivity].
    + exists []. split; reflexivity.
Qed.

Lemma lstrip_head (s : text) (c : ascii) (r : text) :
  lstrip s = c :: r -> is_space c = false.
Proof.
  induction s as [|a s IH]; simpl; [discriminate|].
  destruct (is_space a) eqn:Ha; [assumption|].
  intros E. injection E as -> _. assumption.
Qed.

Lemma lstrip_fixed (s : text) (c : ascii) (r : text) :
  s = c :: r -> is_space c = false -> lstrip s = s.
Proof. intros -> H. simpl. now rewrite H. Qed.

Lemma lstrip_idem (s : text) : lstrip (lstrip s) = lstrip s.
Proof.
  destruct (lstrip s) as [|c r] eqn:E; [reflexivity|].
  eapply lstrip_fixed; [reflexivity|]. eapply lstrip_head; eassumption.
Qed.

Lemma lstrip_nil (s : text) : lstrip s = [] <-> forallb is_space s = true.
Proof.
  induction s as [|c s IH]; simpl; [tauto|].
  destruct (is_space c); simpl; [assumption|]. split; discriminate.
Qed.

Lemma forallb_rev {A} (f : A -> bool) (l : list A) :
  forallb f (rev l) = forallb f l.
Proof.
  induction l as [|a l IH]; simpl; [reflexivity|].
  rewrite forallb_app, IH. simpl. rewrite andb_true_r. apply andb_comm.
Qed.

Lemma rstrip_split (s : text) :
  exists w, s = rstrip s ++ w /\ forallb is_space w = true.
Proof.
  unfold rstrip. destruct (lstrip_split (rev s)) as [w [E Hw]].
  exists (rev w). split.
  - rewrite <- rev_app_distr, <- E. now rewrite rev_involutive.
  - now rewrite forallb_rev.
Qed.

Lemma rstrip_spaces (s w : text) :
  forallb is_space w = true -> rstrip (s ++ w) = rstrip s.
Proof.
  intros H. unfold rstrip. rewrite rev_app_distr, lstrip_spaces; [reflexivity|].
  now rewrite forallb_rev.
Qed.

(** A right-stripped string does not end with white space. *)
Lemma rstrip_no_trailing (s a b : text) :
  rstrip s = a ++ b -> forallb is_space b = true -> b = [].
Proof.
  unfold rstrip. intros E Hb.
  apply (f_equal (@rev ascii)) in E. rewrite rev_involutive, rev_app_distr in E.
  destruct (rev b) as [|c r] eqn:Eb.
  - apply (f_equal (@rev ascii)) in Eb. now rewrite rev_involutive in Eb.
  - simpl in E. apply lstrip_head in E.
    assert (H : forallb is_space (rev b) = true) by now rewrite forallb_rev.
    rewrite Eb in H. simpl in H. rewrite E in H. discriminate.
Qed.

Lemma rstrip_nil (s : text) : rstrip s = [] <-> forallb is_space s = true.
Proof.
  unfold rstrip. rewrite <- (forallb_rev is_space s), <- lstrip_nil.
  split; intros H.
  - apply (f_equal (@rev ascii)) in H. now rewrite rev_involutive in H.
  - now rewrite H.
Qed.

Lemma strip_nil (s : text) : strip s = [] <-> forallb is_space s = true.
Proof.
  unfold strip. rewrite rstrip_nil. split; intros H.
  - destruct (lstrip_split s) as [w [E Hw]]. rewrite E, forallb_app, Hw, H. reflexivity.
  - destruct (lstrip_split s) as [w [E Hw]]. rewrite E, forallb_app in H.
    now apply andb_true_iff in H.
Qed.

Lemma strip_no_trailing (s a b : text) :
  strip s = a ++ b -> forallb is_space b = true -> b = [].
Proof. apply rstrip_no_trailing. Qed.

Lemma sub_spaces_all_space (b : bool) (s : text) :
  forallb is_space (sub_spaces b s) = true -> forallb is_space s = true.
Proof.
  revert b. induction s as [|c s IH]; intros b; simpl; [reflexivity|].
  destruct (is_space c) eqn:Hc; simpl.
  - destruct b; simpl; apply IH.
  - rewrite Hc. discriminate.
Qed.

Lemma all_space_sub_spaces (b : bool) (s : text) :
  forallb is_space s = true -> forallb is_space (sub_spaces b s) = true.
Proof.
  revert b. induction s as [|c s IH]; intros b; simpl; [reflexivity|].
  intros H. apply andb_true_iff in H as [Hc Hs]. rewrite Hc.
  destruct b; simpl; auto.
Qed.

Lemma norm_space_nil (s : text) :
  norm_space s = [] <-> forallb is_space s = true.
Proof.
  unfold norm_space. rewrite strip_nil. split.
  - apply sub_spaces_all_space.
  - apply all_space_sub_spaces.
Qed.

Lemma norm_space_no_trailing (s a b : text) :
  norm_space s = a ++ b -> forallb is_space b = true -> b = [].
Proof. apply strip_no_trailing. Qed.

(** ** The matcher: what a match establishes *)

Lemma rep_sound {A} cls lo hi greedy :
  forall s n p (k : cursor -> option A) x,
    rep cls lo hi greedy n s p k = Some x ->
    exists taken s',
      s = taken ++ s' /\ forallb cls taken = true /\
      lo <= n + List.length taken /\
      (forall h, hi = Some h -> n <= h -> n + List.length taken <= h) /\
      k {| pos := p + List.length taken; rest := s' |} = Some x.
Proof.
  assert (Hstop : forall s n p (k : cursor -> option A) x,
    (if lo <=? n then k {| pos := p; rest := s |} else None) = Some x ->
    exists taken s',
      s = taken ++ s' /\ forallb cls taken = true /\
      lo <= n + List.length taken /\
      (forall h, hi = Some h -> n <= h -> n + List.length taken <= h) /\
      k {| pos := p + List.length taken; rest := s' |} = Some x).
  { intros s n p k x H. destruct (lo <=? n) eqn:E; [|discriminate].
    apply Nat.leb_le in E. exists [], s. simpl. rewrite !Nat.add_0_r.
    repeat split; auto. }
  induction s as [|c s IH]; intros n p k x H.
  - simpl in H. now apply Hstop.
  - simpl in H. destruct (cls c && below n hi) eqn:E; [|now apply Hstop].
    apply andb_true_iff in E as [Hc Hb].
    assert (Hnext : forall x, rep cls lo hi greedy (S n) s (S p) k = Some x ->
      exists taken s',
        c :: s = taken ++ s' /\ forallb cls taken = true /\
        lo <= n + List.length taken /\
        (forall h, hi = Some h -> n <= h -> n + List.length taken <= h) /\
        k {| pos := p + List.length taken; rest := s' |} = Some x).
    { intros y Hy. apply IH in Hy as (taken & s' & -> & Ht & Hlo & Hhi & Hk).
      exists (c :: taken), s'. simpl. rewrite Hc, Ht.
      replace (p + S (List.length taken)) with (S p + List.length taken) by lia.
      repeat split; auto; try lia.
      intros h Eh _. subst hi. simpl in Hb. apply Nat.ltb_lt in Hb.
      specialize (Hhi h eq_refl). lia. }
    destruct greedy.
    + destruct (rep cls lo hi true (S n) s (S p) k) eqn:R.
      * injection H as <-. now apply Hnext.
      * now apply Hstop.
    + destruct (if lo <=? n then k {| pos := p; rest := c :: s |} else None) eqn:R.
      * injection H as <-. now apply Hstop.
      * now apply Hnext.
Qed.

Lemma run_sound {A} (r : regex) :
  forall cur g (k : cursor -> groups -> option A) x,
    run r cur g k = Some x ->
    exists cur' g', matches r cur g cur' g' /\ k cur' g' = Some x.
Proof.
  induction r as [| |cls|cls lo hi greedy|r1 IH1 r2 IH2|r1 IH1 r2 IH2|i r IH];
    intros cur g k x H; simpl in H.
  - destruct (pos cur =? 0) eqn:E; [|discriminate].
    exists cur, g. split; [|assumption]. constructor. now apply Nat.eqb_eq.
  - destruct (at_eol (rest cur)) eqn:E; [|discriminate].
    exists cur, g. split; [|assumption]. now constructor.
  - destruct cur as [p s]. simpl in H. destruct s as [|c s]; [discriminate|].
    destruct (cls c) eqn:E; [|discriminate].
    eexists _, g. split; [|eassumption]. now constructor.
  - destruct cur as [p s]. simpl in H.
    apply rep_sound in H as (taken & s' & -> & Ht & Hlo & Hhi & Hk).
    eexists _, g. split; [|eassumption]. constructor; auto.
    intros h Eh. specialize (Hhi h Eh). lia.
  - apply IH1 in H as (cur1 & g1 & M1 & H). apply IH2 in H as (cur2 & g2 & M2 & H).
    exists cur2, g2. split; [|assumption]. econstructor; eassumption.
  - destruct (run r1 cur g k) eqn:R.
    + injection H as <-. apply IH1 in R as (cur' & g' & M & H).
      exists cur', g'. split; [|assumption]. now apply M_Alt_l.
    + apply IH2 in H as (cur' & g' & M & H).
      exists cur', g'. split; [|assumption]. now apply M_Alt_r.
  - apply IH in H as (cur' & g' & M & H).
    eexists _, _. split; [|eassumption]. now constructor.
Qed.

Lemma matches_consumes r cur g cur' g' :
  matches r cur g cur' g' ->
  exists taken, rest cur = taken ++ rest cur' /\ pos cur' = pos cur + List.length taken.
Proof.
  induction 1; simpl.
  - exists []. simpl. split; [reflexivity | lia].
  - exists []. simpl. split; [reflexivity | lia].
  - exists [c]. simpl. split; [reflexivity | lia].
  - exists taken. auto.
  - destruct IHmatches1 as (t1 & E1 & P1), IHmatches2 as (t2 & E2 & P2).
    exists (t1 ++ t2). rewrite E1, E2, P2, P1, <- app_assoc, length_app.
    split; [reflexivity | lia].
  - assumption.
  - assumption.
  - assumption.
Qed.

(** ** The patterns: what their matches look like *)

Lemma firstn_exact (t s : text) (n : nat) :
  n = List.length t -> firstn n (t ++ s) = t.
Proof.
  intros ->. rewrite firstn_app, Nat.sub_diag, firstn_all. simpl. apply app_nil_r.
Qed.

Lemma app_split_base (x post : text) : x ++ post = [] ++ x ++ post.
Proof. reflexivity. Qed.

Lemma app_split_step (a b pre x post : text) :
  b = pre ++ x ++ post -> a ++ b = (a ++ pre) ++ x ++ post.
Proof. intros ->. now rewrite app_assoc. Qed.

Lemma app_split_cons (c : ascii) (b pre x post : text) :
  b = pre ++ x ++ post -> c :: b = (c :: pre) ++ x ++ post.
Proof. now intros ->. Qed.

Lemma at_eol_space (s : text) : at_eol s = true -> forallb is_space s = true.
Proof.
  destruct s as [|c [|d s]]; simpl; try discriminate; [reflexivity|].
  intros H. apply Nat.eqb_eq in H. unfold is_space, in_range. rewrite H. reflexivity.
Qed.

Ltac inv_matches :=
  repeat match goal with
         | H : matches (Seq _ _) _ _ _ _ |- _ => inversion H; subst; clear H
         | H : matches (Grp _ _) _ _ _ _ |- _ => inversion H; subst; clear H
         | H : matches (Rep _ _ _ _) _ _ _ _ |- _ => inversion H; subst; clear H
         | H : matches (Chr _) _ _ _ _ |- _ => inversion H; subst; clear H
         | H : matches Bol _ _ _ _ |- _ => inversion H; subst; clear H
         | H : matches Eol _ _ _ _ |- _ => inversion H; subst; clear H
         | H : matches (Alt _ _) _ _ _ _ |- _ => inversion H; subst; clear H
         end.

Ltac captured :=
  repeat match goal with
         | |- context [firstn ?n (?t ++ ?s)] =>
             rewrite (firstn_exact t s n) by lia
         | |- context [firstn ?n (?a ++ ?b ++ ?s)] =>
             rewrite (app_assoc a b s), (firstn_exact (a ++ b) s n)
               by (rewrite ?length_app; lia)
         end.

Ltac find_middle :=
  first [ apply app_split_base
        | apply app_split_step; find_middle
        | apply app_split_cons; find_middle ].

Ltac by_length :=
  let E := fresh in
  intros E; apply (f_equal (@List.length ascii)) in E;
  rewrite ?length_app in E; simpl in E; lia.

Lemma header_match_sound (txt : text) (m : groups) :
  re_match COURSE_HEADER_RE txt = Some m ->
  exists subj num ttl,
    m = [(3, ttl); (2, num); (1, subj)] /\
    subj <> [] /\ num <> [] /\ ttl <> [] /\
    exists pre post, txt = pre ++ ttl ++ post /\ forallb is_space post = true.
Proof.
  unfold re_match. intros H. apply run_sound in H as (cur' & g' & M & E).
  injection E as <-.
  cbv [COURSE_HEADER_RE seq star plus lazy_plus between re_subject re_number] in M.
  inv_matches. simpl. captured.
  eexists _, _, _. split; [reflexivity|].
  repeat split; try by_length.
  eexists _, _. split; [find_middle|].
  rewrite forallb_app. apply andb_true_iff. split; [assumption|].
  now apply at_eol_space.
Qed.

Lemma code_only_match_sound (txt : text) (m : groups) :
  re_match COURSE_CODE_ONLY_RE txt = Some m ->
  exists subj num, m = [(2, num); (1, subj)] /\ subj <> [] /\ num <> [].
Proof.
  unfold re_match. intros H. apply run_sound in H as (cur' & g' & M & E).
  injection E as <-.
  cbv [COURSE_CODE_ONLY_RE seq star plus lazy_plus between re_subject re_number] in M.
  inv_matches. simpl. captured.
  eexists _, _. split; [reflexivity|].
  split; by_length.
Qed.

Lemma search_from_sound (r : regex) (s : text) :
  forall p m, search_from r p s = Some m ->
    exists cur cur', matches r cur [] cur' m.
Proof.
  induction s as [|c s IH]; intros p m H; simpl in H.
  - destruct (run r _ [] _) eqn:R; [|discriminate]. injection H as ->.
    apply run_sound in R as (cur' & g' & M & E). injection E as ->. eauto.
  - destruct (run r _ [] _) eqn:R.
    + injection H as ->.
      apply run_sound in R as (cur' & g' & M & E). injection E as ->. eauto.
    + eauto.
Qed.

Lemma header_search_sound (txt : text) (m : groups) :
  re_search HEADER_ANYWHERE_RE txt = Some m ->
  exists subj num ttl last,
    m = [(4, last); (3, ttl); (2, num); (1, subj)] /\ subj <> [] /\ num <> [].
Proof.
  unfold re_search. intros H. apply search_from_sound in H as (cur & cur' & M).
  cbv [HEADER_ANYWHERE_RE seq star plus lazy_plus between re_subject re_number] in M.
  inv_matches; simpl; captured.
  - eexists _, _, _, _. split; [reflexivity|]. split; by_length.
  - eexists _, _, _, _. split; [reflexivity|]. split; by_length.
Qed.

Lemma units_match_sound (txt : text) (m : groups) :
  re_match UNITS_RE txt = Some m ->
  exists u tail,
    txt = "(" :: u ++ ")" :: tail /\ u <> [] /\ forallb cls_not_rparen u = true.
Proof.
  unfold re_match. intros H. apply run_sound in H as (cur' & g' & M & E).
  injection E as <-.
  cbv [UNITS_RE seq star plus lazy_plus between] in M.
  inv_matches. simpl in *.
  repeat match goal with
         | H : cls_is _ _ = true |- _ => apply Ascii.eqb_eq in H; subst
         end.
  eexists _, _. split; [reflexivity|]. split; [by_length | assumption].
Qed.

(** ** The header *)

(** The title read off a match of the header pattern on a normalized
    text is not empty: the match ends with white space up to the end of
    a text that does not end with white space. *)
Lemma header_of_match_nonempty (raw : text) (m : groups) :
  re_match COURSE_HEADER_RE (norm_space raw) = Some m ->
  forall subj num ttl, header_of_match m = (subj, num, ttl) ->
  subj <> [] /\ num <> [] /\ ttl <> [].
Proof.
  intros H subj num ttl E.
  apply header_match_sound in H
    as (s & n & t & -> & Hs & Hn & Ht & pre & post & Etxt & Hpost).
  unfold header_of_match in E. simpl in E. injection E as <- <- <-.
  repeat split; try assumption.
  intros Hnil. apply norm_space_nil in Hnil.
  apply Ht. apply (norm_space_no_trailing raw pre (t ++ post)) in Etxt.
  - now apply app_eq_nil in Etxt.
  - rewrite forallb_app, Hnil, Hpost. reflexivity.
Qed.

Lemma header_from_id_title_nonempty (cd : element) subj num ttl :
  header_from_id_title cd = Some (subj, num, ttl) ->
  subj <> [] /\ num <> [] /\ ttl <> [].
Proof.
  unfold header_from_id_title.
  destruct (select_one _ cd) as [id_title|]; [|discriminate].
  destruct (re_match COURSE_HEADER_RE _) as [m|] eqn:M.
  - intros E. assert (E' : header_of_match m = (subj, num, ttl)) by congruence.
    eapply header_of_match_nonempty; eassumption.
  - destruct (contains _ _); [|discriminate].
    destruct (split1 _ _) as [left_part right_part].
    destruct (re_match COURSE_CODE_ONLY_RE _) as [m2|] eqn:M2; [|discriminate].
    destruct (nonempty _) eqn:N; [|discriminate].
    intros E. injection E as <- <- <-.
    apply code_only_match_sound in M2 as (s & n & -> & Hs & Hn). simpl.
    repeat split; try assumption. now apply nonempty_true.
Qed.

Lemma header_from_first_b_nonempty (cd : element) subj num ttl :
  header_from_first_b cd = Some (subj, num, ttl) ->
  subj <> [] /\ num <> [] /\ ttl <> [].
Proof.
  unfold header_from_first_b.
  destruct (find _ cd) as [b|]; [|discriminate].
  destruct (re_match COURSE_HEADER_RE _) as [m|] eqn:M; [|discriminate].
  intros E. assert (E' : header_of_match m = (subj, num, ttl)) by congruence.
  eapply header_of_match_nonempty; eassumption.
Qed.

Lemma header_from_full_text_nonempty (cd : element) subj num ttl :
  header_from_full_text cd = Some (subj, num, ttl) ->
  subj <> [] /\ num <> [] /\ ttl <> [].
Proof.
  unfold header_from_full_text.
  destruct (re_search _ _) as [m|] eqn:M; [|discriminate].
  destruct (nonempty _) eqn:N; [|discriminate].
  intros E. injection E as <- <- <-.
  apply header_search_sound in M as (s & n & t & l & -> & Hs & Hn). simpl.
  repeat split; try assumption. simpl in N. now apply nonempty_true.
Qed.

Lemma extract_course_header_nonempty (cd : element) subj num ttl :
  extract_course_header cd = Some (subj, num, ttl) ->
  subj <> [] /\ num <> [] /\ ttl <> [].
Proof.
  unfold extract_course_header.
  destruct (header_from_id_title cd) as [h|] eqn:H1.
  - intros E. injection E as ->. now apply header_from_id_title_nonempty in H1.
  - destruct (header_from_first_b cd) as [h|] eqn:H2.
    + intros E. injection E as ->. now apply header_from_first_b_nonempty in H2.
    + apply header_from_full_text_nonempty.
Qed.

(** C1: when [parse_course] returns a record, its subject, its number
    and its title are non-empty strings. *)
Theorem parse_course_required_fields (course_div : element) (url : text) (c : course) :
  parse_course course_div url = Some c ->
  subject c <> [] /\ number c <> [] /\ title c <> [].
Proof.
  unfold parse_course.
  destruct (extract_course_header course_div) as [[[subj num] ttl]|] eqn:H; [|discriminate].
  destruct (parse_units_and_instructors course_div) as [u i].
  intros E. injection E as <-. simpl.
  now apply extract_course_header_nonempty in H.
Qed.

(** ** The description *)

Lemma description_step_label_free (best_text : text) (d : element) :
is_label_text best_text = false ->
is_label_text (description_step best_text d) = false.
Proof.
intros H. unfold description_step.
destruct (negb (nonempty _)); [assumption|].
destruct (is_label_text (norm_space _)) eqn:E; [assumption|].
destruct (_ <? _); assumption.
Qed.

Lemma description_loop_label_free (ds : list element) :
forall best_text,
  is_label_text best_text = false ->
  is_label_text (fold_left description_step ds best_text) = false.
Proof.
induction ds as [|d ds IH]; intros best_text H; simpl; [assumption|].
apply IH, description_step_label_free, H.
Qed.

(** C6: the text [extract_description] returns contains neither
    "Prerequisite:" nor "Recommended Preparation:". *)
Theorem extract_description_label_free (course_div : element) :
contains (L "Prerequisite:") (extract_description course_div) = false /\
contains (L "Recommended Preparation:") (extract_description course_div) = false.
Proof.
apply orb_false_iff. fold (is_label_text (extract_description course_div)).
unfold extract_description. now apply description_loop_label_free.
Qed.

Lemma description_loop_candidates (ds : list element) :
forall best_text,
  fold_left description_step ds best_text =
  fold_left longer
    (filter (fun txt => nonempty txt && negb (is_label_text txt))
       (map element_text ds)) best_text.
Proof.
induction ds as [|d ds IH]; intros best_text; simpl; [reflexivity|].
rewrite IH. unfold description_step at 1. fold (element_text d).
destruct (nonempty (element_text d)); simpl; [|reflexivity].
destruct (is_label_text (element_text d)); simpl; reflexivity.
Qed.

Lemma longer_cases (best_text t : text) :
(len best_text < len t /\ longer best_text t = t) \/
(len t <= len best_text /\ longer best_text t = best_text).
Proof.
unfold longer. destruct (len best_text <? len t) eqn:E.
- left. apply Nat.ltb_lt in E. auto.
- right. apply Nat.ltb_ge in E. auto.
Qed.

Lemma longer_loop (l : list text) :
forall best_text,
  (fold_left longer l best_text = best_text /\
   forall t, In t l -> len t <= len best_text) \/
  (exists i,
      nth_error l i = Some (fold_left longer l best_text) /\
      len best_text < len (fold_left longer l best_text) /\
      (forall t, In t l -> len t <= len (fold_left longer l best_text)) /\
      (forall j t, j < i -> nth_error l j = Some t ->
                   len t < len (fold_left longer l best_text))).
Proof.
induction l as [|t l IH]; intros best_text; simpl.
- left. split; [reflexivity | intros ? []].
- set (r := fold_left longer l (longer best_text t)).
  destruct (IH (longer best_text t)) as [[Er Hall] | (i & Hi & Hlt & Hall & Hbefore)];
    fold r in Er || fold r in Hi, Hlt, Hall, Hbefore;
    destruct (longer_cases best_text t) as [[Hlen El] | [Hlen El]];
    rewrite El in *.
  + right. exists 0. rewrite Er. simpl. repeat split; auto.
    * intros u [<- | Hu]; auto.
    * intros j u Hj. lia.
  + left. split; [assumption|]. intros u [<- | Hu]; auto.
  + right. exists (S i). simpl. repeat split; auto; try lia.
    * intros u [<- | Hu]; auto. lia.
    * intros [|j] u Hj Hu; simpl in Hu.
      -- injection Hu as <-. assumption.
      -- apply (Hbefore j); [lia | assumption].
  + right. exists (S i). simpl. repeat split; auto.
    * intros u [<- | Hu]; auto. lia.
    * intros [|j] u Hj Hu; simpl in Hu.
      -- injection Hu as <-. lia.
      -- apply (Hbefore j); [lia | assumption].
Qed.

Lemma hd_error_filter_find {A : Type} (p q : A -> bool) (l : list A) :
(forall x, p x = q x) -> hd_error (filter p l) = List.find q l.
Proof.
intros H. induction l as [|a l IH]; simpl; [reflexivity|].
rewrite <- H. destruct (p a); [reflexivity | exact IH].
Qed.

Lemma selects_inner_container (n : node) :
selects (SelIdSuffix (L "div") (L "nonchildcourseContainer")) n = is_inner_container n.
Proof.
destruct n as [c t | name [i|] cl cs]; try reflexivity.
unfold selects, is_inner_container.
now rewrite andb_true_r.
Qed.

Lemma description_container_preferred (course_div : element) :
description_container course_div = preferred_container course_div.
Proof.
unfold description_container, preferred_container, select_one, select.
rewrite (hd_error_filter_find _ (fun d => is_inner_container (el_node d)));
  [reflexivity|].
intros d. apply selects_inner_container.
Qed.

Lemma description_candidates_divs (course_div : element) :
description_candidates course_div = candidates_among (has_name (L "div")) course_div.
Proof.
unfold description_candidates, candidates_among, find_all, descendants.
now rewrite description_container_preferred.
Qed.

(** C7, as amended: [extract_description] examines the [div] elements
    below the preferred inner container, or below the block when there
    is none, and returns the longest of their normalized texts that are
    not empty and that the label filter keeps, the first of them when
    several are longest, and the empty string when there is none. *)
Theorem extract_description_first_longest (course_div : element) :
let candidates := candidates_among (has_name (L "div")) course_div in
let r := extract_description course_div in
(candidates = [] /\ r = []) \/
(exists i,
    nth_error candidates i = Some r /\
    (forall t, In t candidates -> len t <= len r) /\
    (forall j t, j < i -> nth_error candidates j = Some t -> len t < len r)).
Proof.
intros candidates r. subst r. unfold extract_description.
rewrite description_loop_candidates. fold (description_candidates course_div).
rewrite description_candidates_divs. fold candidates.
destruct (longer_loop candidates []) as [[Er Hall] | (i & Hi & _ & Hall & Hbefore)].
- left. split; [|assumption].
  destruct candidates as [|t l] eqn:E; [reflexivity|]. exfalso.
  assert (Ht : In t candidates) by (rewrite E; now left).
  unfold candidates, candidates_among in Ht.
  apply filter_In in Ht as [_ Ht]. apply andb_true_iff in Ht as [Ht _].
  specialize (Hall t (or_introl eq_refl)). destruct t; [discriminate|].
  simpl in Hall. lia.
- right. exists i. auto.
Qed.

(** C7, as stated, fails on a block in which an element that is no
    [div] holds the longest text: the script does not look at it. *)
Lemma extract_description_not_as_stated :
candidates_among is_tag paragraph_block =
  [L "Things."; L "An introduction to things."] /\
candidates_among (has_name (L "div")) paragraph_block = [L "Things."] /\
description_as_stated paragraph_block = L "An introduction to things." /\
extract_description paragraph_block = L "Things." /\
extract_description paragraph_block <> description_as_stated paragraph_block.
Proof.
repeat split; try (vm_compute; reflexivity); vm_compute; discriminate.
Qed.

(** ** Floating point and the progress bar *)

Section FloatProperties.

Open Scope Z_scope.

Lemma round_half_even_le (n d b : Z) :
  0 < d -> n <= d * b -> round_half_even n d <= b.
Proof.
  intros Hd Hn. unfold round_half_even.
  pose proof (Z.div_mod n d ltac:(lia)) as E.
  pose proof (Z.mod_pos_bound n d Hd) as R.
  assert (Hq : n / d <= b) by (apply Z.div_le_upper_bound; lia).
  destruct (2 * (n mod d) <? d) eqn:C1; [assumption|].
  apply Z.ltb_ge in C1.
  assert (n / d <> b) by nia.
  destruct (d <? 2 * (n mod d)); [lia|].
  destruct (Z.even (n / d)); lia.
Qed.

Lemma round_half_even_ge (n d : Z) :
  n / d <= round_half_even n d.
Proof.
  unfold round_half_even.
  destruct (2 * (n mod d) <? d); [lia|].
  destruct (d <? 2 * (n mod d)); [lia|].
  destruct (Z.even (n / d)); lia.
Qed.

Lemma round_half_even_exact (d b : Z) :
  0 < d -> round_half_even (d * b) d = b.
Proof.
  intros Hd. unfold round_half_even.
  rewrite (Z.mul_comm d b), Z.div_mul, Z.mod_mul by lia.
  destruct (2 * 0 <? d) eqn:C; [reflexivity|]. apply Z.ltb_ge in C. lia.
Qed.

Lemma spacing_pos (m : Z) : 0 < spacing m.
Proof. unfold spacing. apply Z.pow_pos_nonneg; lia. Qed.

Lemma spacing_divide (m b : Z) :
  m <= b -> (spacing m | spacing b).
Proof.
  intros H. unfold spacing.
  pose proof (Z.log2_le_mono m b H) as L.
  exists (2 ^ (Z.max (Z.log2 b - 52) 0 - Z.max (Z.log2 m - 52) 0)).
  rewrite <- Z.pow_add_r by lia. f_equal. lia.
Qed.

Lemma round_units_nonneg (n d : Z) :
  0 <= n -> 0 < d -> 0 <= round_units n d.
Proof.
  intros Hn Hd. unfold round_units.
  pose proof (spacing_pos (n / d)) as S.
  apply Z.mul_nonneg_nonneg; [|lia].
  etransitivity; [|apply round_half_even_ge].
  apply Z.div_pos; nia.
Qed.

Lemma round_units_le (n d b : Z) :
  0 < d -> n <= d * b -> representable b -> round_units n d <= b.
Proof.
  intros Hd Hn Hb. unfold round_units.
  pose proof (spacing_pos (n / d)) as S.
  assert (Hq : n / d <= b) by (apply Z.div_le_upper_bound; lia).
  destruct (Z.divide_trans _ _ _ (spacing_divide _ _ Hq) Hb) as [b' Eb].
  rewrite Eb.
  apply Z.mul_le_mono_nonneg_r; [lia|].
  apply round_half_even_le; nia.
Qed.

Lemma round_units_exact (d b : Z) :
  0 < d -> representable b -> round_units (d * b) d = b.
Proof.
  intros Hd Hb. unfold round_units.
  rewrite (Z.mul_comm d b), Z.div_mul by lia.
  destruct Hb as [b' Eb].
  pose proof (spacing_pos b) as S.
  replace (b * d) with (d * spacing b * b') by lia.
  rewrite round_half_even_exact by nia. lia.
Qed.

Lemma round_units_ge_power (n d : Z) :
  0 < d -> d <= n -> 2 ^ Z.log2 (n / d) <= round_units n d.
Proof.
  intros Hd Hn. unfold round_units, spacing.
  assert (Hq : 0 < n / d) by (apply Z.div_str_pos; lia).
  pose proof (Z.log2_spec _ Hq) as [L _].
  pose proof (Z.log2_nonneg (n / d)) as L0.
  set (l := Z.log2 (n / d)) in *.
  set (s := Z.max (l - 52) 0).
  assert (Hs : 0 < 2 ^ s) by (apply Z.pow_pos_nonneg; lia).
  assert (E : 2 ^ l <= n / (d * 2 ^ s) * 2 ^ s).
  { rewrite <- Z.div_div by lia.
    assert (D : (2 ^ s | 2 ^ l)).
    { exists (2 ^ (l - s)). rewrite <- Z.pow_add_r by lia. f_equal. lia. }
    destruct D as [k Ek]. rewrite Ek.
    apply Z.mul_le_mono_nonneg_r; [lia|].
    apply Z.div_le_lower_bound; lia. }
  etransitivity; [exact E|].
  apply Z.mul_le_mono_nonneg_r; [lia|]. apply round_half_even_ge.
Qed.

Lemma representable_int (w : Z) :
  0 <= w < 2 ^ 53 -> representable (w * one_in_units).
Proof.
  intros [H0 H1]. unfold representable, spacing, one_in_units.
  destruct (Z.eq_dec w 0) as [->|Hw]; [exists 0; reflexivity|].
  rewrite Z.log2_mul_pow2 by lia.
  assert (L : Z.log2 w < 53) by (apply Z.log2_lt_pow2; lia).
  pose proof (Z.log2_nonneg w) as L0.
  rewrite Z.max_l by lia.
  exists (w * 2 ^ (52 - Z.log2 w)).
  rewrite <- Z.mul_assoc, <- Z.pow_add_r by lia. do 2 f_equal. lia.
Qed.

Lemma representable_one : representable one_in_units.
Proof.
  replace one_in_units with (1 * one_in_units) by lia.
  apply representable_int. lia.
Qed.

(** The operations of [update]. *)

Lemma one_in_units_pos : 0 < one_in_units.
Proof. unfold one_in_units. apply Z.pow_pos_nonneg; lia. Qed.

Lemma overflows_small (m w : Z) :
  m <= w * one_in_units -> w < 2 ^ 1024 -> overflows m = false.
Proof.
  intros Hm Hw. unfold overflows. apply Z.leb_gt.
  replace (2 ^ 2098) with (2 ^ 1024 * one_in_units)
    by (unfold one_in_units; rewrite <- Z.pow_add_r by lia; reflexivity).
  pose proof one_in_units_pos. nia.
Qed.

Lemma small_int (w : Z) : w < 2 ^ 53 -> w < 2 ^ 1024.
Proof.
  intros H. eapply Z.lt_le_trans; [exact H|].
  apply Z.pow_le_mono_r; lia.
Qed.

Lemma true_div_nonneg (a b : Z) :
  0 <= a -> 1 <= b ->
  true_div a b =
  let m := round_units (a * one_in_units) b in
  if overflows m then inl OverflowError
  else inr {| negative := false; magnitude := m |}.
Proof.
  intros Ha Hb. unfold true_div.
  destruct (b =? 0) eqn:E; [apply Z.eqb_eq in E; lia|].
  rewrite !Z.abs_eq by lia.
  replace (a <? 0) with false by (symmetry; apply Z.ltb_ge; lia).
  replace (b <? 0) with false by (symmetry; apply Z.ltb_ge; lia).
  reflexivity.
Qed.

Lemma true_div_units (a b : Z) (q : finite) :
  true_div a b = inr q -> b <> 0 /\ 0 <= magnitude q.
Proof.
  unfold true_div. destruct (b =? 0) eqn:E; [discriminate|].
  apply Z.eqb_neq in E. destruct (overflows _); [discriminate|].
  intros H. injection H as <-. cbn [magnitude]. split; [assumption|].
  pose proof one_in_units_pos.
  apply round_units_nonneg; [|lia].
  apply Z.mul_nonneg_nonneg; lia.
Qed.

Lemma float_of_int_small (w : Z) :
  0 <= w < 2 ^ 53 ->
  float_of_int w = inr {| negative := false; magnitude := w * one_in_units |}.
Proof.
  intros Hw. unfold float_of_int.
  rewrite Z.abs_eq by lia.
  assert (E : round_units (w * one_in_units) 1 = w * one_in_units).
  { rewrite <- (Z.mul_1_l (w * one_in_units)) at 1.
    apply round_units_exact; [lia | now apply representable_int]. }
  rewrite E. cbv zeta.
  rewrite (overflows_small _ w) by (try apply small_int; lia).
  replace (w <? 0) with false by (symmetry; apply Z.ltb_ge; lia).
  reflexivity.
Qed.

(** The product of a float between 0 and 1 and a small whole number. *)
Lemma float_mul_small (x : finite) (w : Z) :
  negative x = false -> 0 <= magnitude x <= one_in_units -> 0 <= w < 2 ^ 53 ->
  exists p,
    float_mul x {| negative := false; magnitude := w * one_in_units |} =
    Fin {| negative := false; magnitude := p |} /\
    0 <= p <= w * one_in_units.
Proof.
  intros Hs Hx Hw. unfold float_mul. cbn [negative magnitude]. rewrite Hs.
  pose proof one_in_units_pos as H1.
  set (p := round_units (magnitude x * (w * one_in_units)) one_in_units).
  assert (P0 : 0 <= p).
  { apply round_units_nonneg; [|assumption]. apply Z.mul_nonneg_nonneg; nia. }
  assert (P1 : p <= w * one_in_units).
  { apply round_units_le; [assumption | nia | apply representable_int; lia]. }
  rewrite (overflows_small p w) by (try apply small_int; lia).
  exists p. auto.
Qed.

Lemma float_mul_one (w : Z) :
  0 <= w < 2 ^ 53 ->
  float_mul float_1 {| negative := false; magnitude := w * one_in_units |} =
  Fin {| negative := false; magnitude := w * one_in_units |}.
Proof.
  intros Hw. unfold float_mul, float_1. cbn [negative magnitude].
  rewrite round_units_exact
    by (try apply representable_int; try apply one_in_units_pos; lia).
  rewrite (overflows_small _ w) by (try apply small_int; lia).
  reflexivity.
Qed.

Lemma float_min_one (q : finite) :
  negative q = false -> 0 <= magnitude q ->
  negative (float_min q float_1) = false /\
  0 <= magnitude (float_min q float_1) <= one_in_units /\
  (one_in_units <= magnitude q -> float_min q float_1 = float_1) /\
  (magnitude q <= one_in_units -> float_min q float_1 = q).
Proof.
  intros Hs Hq. unfold float_min, float_lt, signed_magnitude. rewrite Hs.
  pose proof one_in_units_pos as H1.
  cbn [float_1 negative magnitude].
  destruct (one_in_units <? magnitude q) eqn:C.
  - apply Z.ltb_lt in C. cbn [float_1 negative magnitude].
    repeat split; try lia.
  - apply Z.ltb_ge in C. rewrite Hs. repeat split; try lia.
    intros H. destruct q as [s u]. cbn [negative magnitude] in *. subst s.
    unfold float_1. f_equal. lia.
Qed.

Lemma int_of_float_small (p w : Z) :
  0 <= p <= w * one_in_units ->
  exists i,
    int_of_float (Fin {| negative := false; magnitude := p |}) = inr i /\
    0 <= i <= w.
Proof.
  intros Hp. pose proof one_in_units_pos as H1.
  exists (p / one_in_units). split; [reflexivity|]. split.
  - apply Z.div_pos; lia.
  - apply Z.div_le_upper_bound; lia.
Qed.

(** At most 100 percent, whatever the quotient. *)
Lemma percent_at_most_100 (q : finite) :
  0 <= magnitude q ->
  float_le (float_mul (float_min q float_1) float_100) (Fin float_100) = true.
Proof.
  intros Hq. pose proof one_in_units_pos as H1.
  assert (R : representable (100 * one_in_units)) by (apply representable_int; lia).
  assert (N : forall r, 0 <= magnitude r ->
            (negative r = true \/ magnitude r <= one_in_units) ->
            float_le (float_mul r float_100) (Fin float_100) = true).
  { intros r Hr Hcase. unfold float_mul, float_100. cbn [negative magnitude].
    set (m := round_units (magnitude r * (100 * one_in_units)) one_in_units).
    assert (M0 : 0 <= m).
    { apply round_units_nonneg; [|assumption]. apply Z.mul_nonneg_nonneg; lia. }
    destruct (negative r) eqn:S; cbn [xorb].
    - destruct (overflows m); [reflexivity|].
      unfold float_le, signed_magnitude. cbn [negative magnitude]. apply Z.leb_le. lia.
    - destruct Hcase as [|Hle]; [discriminate|].
      assert (M1 : m <= 100 * one_in_units) by (apply round_units_le; [lia | nia | exact R]).
      rewrite (overflows_small m 100) by (try apply small_int; lia).
      unfold float_le, signed_magnitude. cbn [negative magnitude]. now apply Z.leb_le. }
  unfold float_min, float_lt.
  destruct (signed_magnitude float_1 <? signed_magnitude q) eqn:C.
  - apply N; cbn; lia.
  - apply Z.ltb_ge in C. apply N; [assumption|].
    unfold signed_magnitude in C. cbn [float_1 negative magnitude] in C.
    destruct (negative q); [now left | now right].
Qed.

Lemma update_state (self self' : ProgressBar) (inc : Z) (line : progress_line) :
  update self inc = inr (self', line) ->
  current self' = (current self + inc)%Z /\
  total self' = total self /\ width self' = width self /\
  shown_current line = (current self + inc)%Z /\ shown_total line = total self.
Proof.
  unfold update. cbn [current total width].
  destruct (true_div _ _); [discriminate|].
  destruct (float_of_int _); [discriminate|].
  destruct (int_of_float _); [discriminate|].
  intros H. injection H as <- <-. cbn. auto.
Qed.

Lemma update_percent (self self' : ProgressBar) (inc : Z) (line : progress_line) :
  update self inc = inr (self', line) ->
  float_le (percent line) (Fin float_100) = true.
Proof.
  unfold update. cbn [current total width].
  destruct (true_div _ _) as [|q] eqn:D; [discriminate|].
  destruct (float_of_int _); [discriminate|].
  destruct (int_of_float _); [discriminate|].
  intros H. injection H as <- <-. cbn [percent].
  apply percent_at_most_100. now apply true_div_units in D.
Qed.

Lemma update_no_zero_division (self : ProgressBar) (inc : Z) :
  total self <> 0 -> update self inc <> inl ZeroDivisionError.
Proof.
  intros Ht. unfold update. cbn [current total width].
  unfold true_div. destruct (total self =? 0) eqn:E; [apply Z.eqb_eq in E; lia|].
  destruct (overflows _); [discriminate|].
  unfold float_of_int. destruct (overflows _); [discriminate|].
  destruct (float_mul _ _); cbn [int_of_float]; discriminate.
Qed.

(** A count within the total, on a bar of small width: [update] draws. *)
Lemma update_in_range (self : ProgressBar) (inc : Z) :
  1 <= total self -> 0 <= current self + inc <= total self ->
  0 <= width self < 2 ^ 53 ->
  exists self' line,
    update self inc = inr (self', line) /\
    total self' = total self /\ width self' = width self /\
    current self' = current self + inc /\
    (filled line + blank line)%nat = Z.to_nat (width self).
Proof.
  intros Ht Hc Hw. unfold update. cbn [current total width].
  pose proof one_in_units_pos as H1.
  rewrite true_div_nonneg by lia. cbv zeta.
  set (m := round_units ((current self + inc) * one_in_units) (total self)).
  assert (M0 : 0 <= m) by (apply round_units_nonneg; nia).
  assert (M1 : m <= one_in_units)
    by (apply round_units_le; [lia | nia | apply representable_one]).
  rewrite (overflows_small m 1) by (try apply small_int; lia).
  destruct (float_min_one {| negative := false; magnitude := m |})
    as (Rs & Ru & _ & Rq); [reflexivity | assumption |].
  rewrite float_of_int_small by assumption.
  destruct (float_mul_small _ (width self) Rs Ru Hw) as (p & -> & Hp).
  destruct (int_of_float_small p (width self) Hp) as (i & -> & Hi).
  eexists _, _. split; [reflexivity|]. cbn. repeat split. lia.
Qed.

Lemma true_div_at_least_one (a b : Z) :
  1 <= b -> b <= a -> one_in_units <= round_units (a * one_in_units) b.
Proof.
  intros Hb Ha. pose proof one_in_units_pos as H1.
  etransitivity; [|apply round_units_ge_power; nia].
  assert (Hq : one_in_units <= a * one_in_units / b)
    by (apply Z.div_le_lower_bound; nia).
  apply Z.log2_le_mono in Hq.
  unfold one_in_units in Hq at 1. rewrite Z.log2_pow2 in Hq by lia.
  unfold one_in_units at 1. apply Z.pow_le_mono_r; lia.
Qed.

Lemma ProgressBar_init_total (t w : Z) : (1 <= total (ProgressBar_init t w))%Z.
Proof. simpl. lia. Qed.

Lemma updates_no_zero_division (incs : list Z) :
  forall self, total self <> 0 -> updates self incs <> inl ZeroDivisionError.
Proof.
  induction incs as [|inc incs IH]; intros self H; simpl; [discriminate|].
  destruct (update self inc) as [e|[self1 line]] eqn:U.
  - intros E. apply (update_no_zero_division self inc H). congruence.
  - apply update_state in U as (_ & Ut & _).
    specialize (IH self1). rewrite Ut in IH. specialize (IH H).
    destruct (updates self1 incs) as [e|[self2 lines]]; [congruence | discriminate].
Qed.

Lemma updates_percent (incs : list Z) :
  forall self self' lines,
    updates self incs = inr (self', lines) ->
    Forall (fun line => float_le (percent line) (Fin float_100) = true) lines.
Proof.
  induction incs as [|inc incs IH]; intros self self' lines; simpl.
  - intros H. injection H as <- <-. constructor.
  - destruct (update self inc) as [|[self1 line]] eqn:U; [discriminate|].
    destruct (updates self1 incs) as [|[self2 lines2]] eqn:Us; [discriminate|].
    intros H. injection H as <- <-. constructor; eauto using update_percent.
Qed.

(** Counts that stay within the total, on a bar of small width: every
    call draws. *)
Lemma updates_in_range (incs : list Z) :
  forall self,
    1 <= total self -> 0 <= width self < 2 ^ 53 -> 0 <= current self ->
    Forall (fun inc => 0 <= inc) incs ->
    current self + fold_right Z.add 0 incs <= total self ->
    exists self' lines, updates self incs = inr (self', lines).
Proof.
  induction incs as [|inc incs IH]; intros self Ht Hw Hc Hall Hsum; simpl.
  - eauto.
  - apply Forall_cons_iff in Hall as [Hinc Hall]. simpl in Hsum.
    assert (S0 : 0 <= fold_right Z.add 0 incs).
    { clear - Hall. induction Hall; simpl; lia. }
    destruct (update_in_range self inc) as (self1 & line & -> & Ut & Uw & Uc & _);
      [lia | lia | lia |].
    destruct (IH self1) as (self2 & lines & ->); try rewrite Ut; try rewrite Uw;
      try rewrite Uc; try assumption; try lia.
    eauto.
Qed.

(** C10: the total of a progress bar is at least 1, so no call of
    [update] divides by zero, whatever the increments; no line written
    shows more than 100 percent; and with counts that stay within the
    total, as when no block was counted, every call of [update] returns
    (a count or a width too large for a float raises [OverflowError]). *)
Theorem progress_bar_never_divides_by_zero (t w : Z) (incs : list Z) :
  (1 <= total (ProgressBar_init t w))%Z /\
  updates (ProgressBar_init t w) incs <> inl ZeroDivisionError /\
  (forall self lines,
     updates (ProgressBar_init t w) incs = inr (self, lines) ->
     Forall (fun line => float_le (percent line) (Fin float_100) = true) lines) /\
  (0 <= w < 2 ^ 53 -> Forall (fun inc => 0 <= inc) incs ->
   fold_right Z.add 0 incs <= Z.max t 1 ->
   exists self lines, updates (ProgressBar_init t w) incs = inr (self, lines)).
Proof.
  pose proof (ProgressBar_init_total t w) as Ht.
  split; [exact Ht|]. split; [apply updates_no_zero_division; lia|].
  split; [apply updates_percent|].
  intros Hw Hall Hsum. apply updates_in_range; try assumption; simpl; lia.
Qed.


Lemma progress_bar_never_divides_by_zero_witness :
  exists self lines,
    updates (ProgressBar_init 0 30) [0] = inr (self, lines) /\
    Forall (fun line => float_le (percent line) (Fin float_100) = true) lines.
Proof.
  destruct (progress_bar_never_divides_by_zero 0 30 [0]) as (_ & _ & Hp & Hd).
  destruct Hd as (self & lines & E);
    [lia | repeat constructor; lia | simpl; lia |].
  exists self, lines. split; [exact E | exact (Hp _ _ E)].
Defined.


(** The quotient 15/22 is rounded below the exact one: 14 cells of 22,
    not 15. *)
Example update_rounds :
  exists self line,
    update {| total := 22; width := 22; current := 0 |} 15 = inr (self, line) /\
    filled line = 14%nat /\ blank line = 8%nat.
Proof. eexists _, _. vm_compute. auto. Qed.

(** A count too large for a float. *)
Example update_overflows :
  update (ProgressBar_init 1 30) (10 ^ 400) = inl OverflowError.
Proof. vm_compute. reflexivity. Qed.

End FloatProperties.

(** ** The driver *)

Section DriverProperties.

Variables exn response : Type.
Variable requests_get : text -> exn + response.
Variable raise_for_status : response -> option exn.
Variable response_text : response -> text.
Variable BeautifulSoup : text -> node.


Lemma count_pages_app (est : Z) (a b : list (text * text)) :
  count_pages BeautifulSoup est (a ++ b) =
  count_pages BeautifulSoup (count_pages BeautifulSoup est a) b.
Proof. unfold count_pages. apply fold_left_app. Qed.

Lemma first_pass_success (urls : list text) :
  forall requested pages est,
    (forall u, In u urls -> exists html, fetch requests_get raise_for_status response_text u = inr html) ->
    exists new,
      first_pass requests_get raise_for_status response_text BeautifulSoup urls requested pages est =
      (inr (pages ++ new, count_pages BeautifulSoup est new), requested ++ urls).
Proof.
  induction urls as [|url urls IH]; intros requested pages est H; simpl.
  - exists []. now rewrite !app_nil_r.
  - destruct (H url (or_introl eq_refl)) as [html ->].
    destruct (IH (requested ++ [url]) (pages ++ [(url, html)])
                (count_headers est (course_displays BeautifulSoup html)))
      as [new ->]; [intros u Hu; apply H; now right|].
    exists ((url, html) :: new). rewrite <- !app_assoc. reflexivity.
Qed.

Lemma first_pass_failure (pre : list text) :
  forall u post e requested pages est,
    (forall v, In v pre -> exists html, fetch requests_get raise_for_status response_text v = inr html) ->
    fetch requests_get raise_for_status response_text u = inl e ->
    first_pass requests_get raise_for_status response_text BeautifulSoup (pre ++ u :: post) requested pages est =
    (inl e, requested ++ pre ++ [u]).
Proof.
  induction pre as [|v pre IH]; intros u post e requested pages est Hpre Hu; simpl.
  - now rewrite Hu.
  - destruct (Hpre v (or_introl eq_refl)) as [html ->].
    rewrite (IH u post e); auto.
    + now rewrite <- app_assoc.
    + intros w Hw. apply Hpre. now right.
Qed.


Lemma block_step_skip (url : text) (st : pass_state) (cd : element) :
  extract_course_header cd = None ->
  block_step (exn := exn) url st cd =
  ({| all_courses := all_courses st; skipped := (skipped st + 1)%Z;
      bar := bar st; stdout := stdout st |}, None).
Proof.
  intros H. unfold block_step, parse_course. now rewrite H.
Qed.

Lemma parse_course_some (cd : element) (url : text) :
  (exists c, parse_course cd url = Some c) <-> extract_course_header cd <> None.
Proof.
  unfold parse_course.
  destruct (extract_course_header cd) as [[[s n] t]|].
  - destruct (parse_units_and_instructors cd). split; [discriminate | eauto].
  - split; [intros [c Hc]; discriminate | congruence].
Qed.

End DriverProperties.


Lemma progress_lines_app (a b : list output) :
  progress_lines (a ++ b) = progress_lines a ++ progress_lines b.
Proof. apply flat_map_app. Qed.

Lemma progress_lines_map (lines : list progress_line) :
  progress_lines (map Progress lines) = lines.
Proof. induction lines; simpl; congruence. Qed.

Lemma map_seq_offset (a : Z) (n1 n2 : nat) :
  forall k,
    map (fun i => (a + Z.of_nat n1 + Z.of_nat i)%Z) (List.seq k n2) =
    map (fun i => (a + Z.of_nat i)%Z) (List.seq (n1 + k) n2).
Proof.
  induction n2 as [|n2 IH]; intros k; simpl; [reflexivity|].
  f_equal; [lia|]. rewrite IH. now rewrite Nat.add_succ_r.
Qed.

(** The first pass counts the blocks that give a record. *)
Lemma count_headers_records (url : text) (blocks : list element) :
  forall est,
    count_headers est blocks =
    (est + Z.of_nat (List.length (records_of_blocks url blocks)))%Z.
Proof.
  unfold count_headers, records_of_blocks.
  induction blocks as [|cd blocks IH]; intros est; simpl; [lia|].
  rewrite IH, length_app. unfold parse_course.
  destruct (extract_course_header cd) as [[[s n] t]|].
  - destruct (parse_units_and_instructors cd). simpl. lia.
  - simpl. lia.
Qed.

Lemma count_pages_records (BeautifulSoup : text -> node) (pages : list (text * text)) :
  forall est,
    count_pages BeautifulSoup est pages =
    (est + Z.of_nat (List.length (records_of_pages BeautifulSoup pages)))%Z.
Proof.
  unfold count_pages, records_of_pages.
  induction pages as [|[url html] pages IH]; intros est; simpl; [lia|].
  rewrite IH, length_app, (count_headers_records url). lia.
Qed.

Section DriverOutput.

Variables exn response : Type.
Variable requests_get : text -> exn + response.
Variable raise_for_status : response -> option exn.
Variable response_text : response -> text.
Variable BeautifulSoup : text -> node.

(** What the inner loop of the second pass does to the state, on a bar
    whose total leaves room for the records to come. *)
Lemma blocks_loop_effect (url : text) (blocks : list element) :
  forall st,
    (1 <= total (bar st))%Z ->
    (0 <= width (bar st) < 2 ^ 53)%Z ->
    (0 <= current (bar st))%Z ->
    (current (bar st) + Z.of_nat (List.length (records_of_blocks url blocks))
     <= total (bar st))%Z ->
    exists st' lines,
      blocks_loop (exn := exn) url blocks st = (st', None) /\
      all_courses st' = all_courses st ++ records_of_blocks url blocks /\
      skipped st' =
        (skipped st + Z.of_nat (List.length (skipped_blocks url blocks)))%Z /\
      total (bar st') = total (bar st) /\
      width (bar st') = width (bar st) /\
      current (bar st') =
        (current (bar st) +
         Z.of_nat (List.length (records_of_blocks url blocks)))%Z /\
      stdout st' = stdout st ++ map Progress lines /\
      map shown_current lines =
        map (fun i => (current (bar st) + Z.of_nat i)%Z)
            (List.seq 1 (List.length (records_of_blocks url blocks))) /\
      Forall (fun line => shown_total line = total (bar st)) lines.
Proof.
  induction blocks as [|cd blocks IH]; intros st H Hw Hc Hroom.
  - exists st, []. simpl. rewrite !app_nil_r, !Z.add_0_r. repeat split; constructor.
  - cbn [blocks_loop]. unfold block_step.
    destruct (parse_course cd url) as [c|] eqn:P.
    + assert (Er : records_of_blocks url (cd :: blocks)
                   = c :: records_of_blocks url blocks)
        by (unfold records_of_blocks; simpl; now rewrite P).
      assert (Es : skipped_blocks url (cd :: blocks) = skipped_blocks url blocks)
        by (unfold skipped_blocks; simpl; now rewrite P).
      rewrite Er, Es in *. clear Er Es.
      cbn [all_courses skipped bar stdout].
      cbn [List.length] in Hroom.
      destruct (update_in_range (bar st) 1) as (b' & line & U & Ut & Uw & Uc0 & _);
        [lia | lia | lia |].
      rewrite U. apply update_state in U as (Uc & _ & _ & Usc & Ust).
      match goal with |- context [blocks_loop url blocks ?st1] =>
        destruct (IH st1)
          as (st' & lines & -> & Hcs & Hs & Ht & Hwd & Hcur & Hout & Hshown & Hall)
      end; cbn [bar]; try lia.
      cbn [all_courses skipped bar stdout] in *.
      exists st', (line :: lines). split; [reflexivity|].
      rewrite Hcs, Hs, Ht, Hwd, Hcur, Hout, Ut, Uw, Uc, <- !app_assoc.
      cbn [app List.length map List.seq]. rewrite Hshown, Usc.
      repeat split; try lia.
      * f_equal. rewrite <- (seq_shift _ 1), map_map. apply map_ext. intros i. lia.
      * constructor; [assumption|]. eapply Forall_impl; [|exact Hall].
        simpl. intros l Hl. congruence.
    + assert (Er : records_of_blocks url (cd :: blocks) = records_of_blocks url blocks)
        by (unfold records_of_blocks; simpl; now rewrite P).
      assert (Es : skipped_blocks url (cd :: blocks)
                   = cd :: skipped_blocks url blocks)
        by (unfold skipped_blocks; simpl; now rewrite P).
      rewrite Er, Es in *. clear Er Es.
      match goal with |- context [blocks_loop url blocks ?st1] =>
        destruct (IH st1)
          as (st' & lines & -> & Hcs & Hs & Ht & Hwd & Hcur & Hout & Hshown & Hall)
      end; cbn [bar]; try assumption.
      cbn [all_courses skipped bar stdout] in *.
      exists st', lines. split; [reflexivity|].
      rewrite Hcs, Hs, Ht, Hwd, Hcur, Hout. cbn [List.length].
      repeat split; try assumption; lia.
Qed.

Lemma second_pass_effect (pages : list (text * text)) :
  forall st,
    (1 <= total (bar st))%Z ->
    (0 <= width (bar st) < 2 ^ 53)%Z ->
    (0 <= current (bar st))%Z ->
    (current (bar st) +
     Z.of_nat (List.length (records_of_pages BeautifulSoup pages))
     <= total (bar st))%Z ->
    exists st' lines,
      second_pass (exn := exn) BeautifulSoup pages st = (st', None) /\
      all_courses st' = all_courses st ++ records_of_pages BeautifulSoup pages /\
      skipped st' =
        (skipped st + Z.of_nat (List.length (skipped_of_pages BeautifulSoup pages)))%Z /\
      total (bar st') = total (bar st) /\
      width (bar st') = width (bar st) /\
      current (bar st') =
        (current (bar st) +
         Z.of_nat (List.length (records_of_pages BeautifulSoup pages)))%Z /\
      stdout st' = stdout st ++ map Progress lines /\
      map shown_current lines =
        map (fun i => (current (bar st) + Z.of_nat i)%Z)
            (List.seq 1 (List.length (records_of_pages BeautifulSoup pages))) /\
      Forall (fun line => shown_total line = total (bar st)) lines.
Proof.
  induction pages as [|[url html] pages IH]; intros st H Hw Hc Hroom.
  - exists st, []. simpl. rewrite !app_nil_r, !Z.add_0_r. repeat split; constructor.
  - cbn [second_pass].
    unfold records_of_pages in Hroom. cbn [flat_map fst snd] in Hroom.
    rewrite length_app, Nat2Z.inj_add in Hroom.
    fold (records_of_pages BeautifulSoup pages) in Hroom.
    destruct (blocks_loop_effect url (course_displays BeautifulSoup html) st)
      as (st1 & lines1 & -> & Hc1 & Hs1 & Ht1 & Hw1 & Hcur1 & Hout1 & Hshown1 & Hall1);
      try assumption; try lia.
    destruct (IH st1)
      as (st' & lines & -> & Hcs & Hs & Ht & Hwd & Hcur & Hout & Hshown & Hall);
      try lia.
    exists st', (lines1 ++ lines). split; [reflexivity|].
    unfold records_of_pages, skipped_of_pages in *. cbn [flat_map fst snd].
    rewrite !length_app, Hcs, Hs, Ht, Hwd, Hcur, Hout, Hc1, Hs1, Ht1, Hw1, Hcur1, Hout1.
    rewrite map_app, <- !app_assoc, map_app, Hshown1, Hshown, Hcur1, seq_app, map_app.
    repeat split; try lia.
    + f_equal. rewrite map_seq_offset. f_equal. f_equal. lia.
    + apply Forall_app. split; [assumption|].
      eapply Forall_impl; [|exact Hall]. simpl. intros l Hl. congruence.
Qed.

(** The second pass over the pages of the first, on the bar made from
    its count. *)
Lemma second_pass_of_first (pages : list (text * text)) :
  let est := count_pages BeautifulSoup 0 pages in
  let st0 := {| all_courses := []; skipped := 0%Z;
                bar := ProgressBar_init est 30; stdout := [] |} in
  est = Z.of_nat (List.length (records_of_pages BeautifulSoup pages)) /\
  exists st lines line b',
    second_pass (exn := exn) BeautifulSoup pages st0 = (st, None) /\
    update (bar st) 0 = inr (b', line) /\
    all_courses st = records_of_pages BeautifulSoup pages /\
    skipped st = Z.of_nat (List.length (skipped_of_pages BeautifulSoup pages)) /\
    stdout st = map Progress lines /\
    map shown_current (lines ++ [line]) =
      map Z.of_nat
        (List.seq 1 (List.length (records_of_pages BeautifulSoup pages)) ++
         [List.length (records_of_pages BeautifulSoup pages)]) /\
    Forall (fun l => shown_total l = Z.max est 1) (lines ++ [line]).
Proof.
  intros est st0.
  assert (Eest : est = Z.of_nat (List.length (records_of_pages BeautifulSoup pages))).
  { unfold est. rewrite count_pages_records. lia. }
  split; [exact Eest|].
  destruct (second_pass_effect pages st0)
    as (st & lines & E & Hcs & Hsk & Ht & Hwd & Hcur & Hout & Hshown & Hall);
    cbn [st0 bar ProgressBar_init total width current]; try lia.
  cbn [st0 all_courses skipped bar stdout ProgressBar_init total width current app]
    in Hcs, Hsk, Ht, Hwd, Hcur, Hout, Hshown, Hall.
  rewrite Z.add_0_l in *.
  destruct (update_in_range (bar st) 0) as (b' & line & U & _);
    [lia | lia | lia |].
  exists st, lines, line, b'. split; [exact E|]. split; [exact U|].
  apply update_state in U as (_ & _ & _ & Usc & Ust).
  repeat split; try assumption.
  - rewrite !map_app, Hshown. cbn [map]. rewrite Usc, Hcur, Z.add_0_r.
    f_equal; try (apply map_ext; intros i; lia).
  - apply Forall_app. split; [assumption|]. constructor; [|constructor]. congruence.
Qed.

End DriverOutput.

Section DriverClaims.

Variables exn response : Type.
Variable requests_get : text -> exn + response.
Variable raise_for_status : response -> option exn.
Variable response_text : response -> text.
Variable BeautifulSoup : text -> node.





(** C5: a block on which the three header strategies fail is skipped:
    no exception, one more skipped block, no record appended. *)
Theorem headerless_block_is_skipped (url : text) (st : pass_state) (cd : element) :
header_from_id_title cd = None ->
header_from_first_b cd = None ->
header_from_full_text cd = None ->
let r := block_step (exn := exn) url st cd in
snd r = None /\
skipped (fst r) = (skipped st + 1)%Z /\
all_courses (fst r) = all_courses st /\
parse_course cd url = None.
Proof.
intros H1 H2 H3 r.
assert (H : extract_course_header cd = None).
{ unfold extract_course_header. now rewrite H1, H2. }
subst r. rewrite block_step_skip by assumption. simpl.
repeat split. unfold parse_course. now rewrite H.
Qed.

(** C9: the count of the first pass is the number of records the second
    pass writes. *)
Theorem first_pass_count_is_output_size (urls : list text) :
(forall u, In u urls ->
   exists html, fetch requests_get raise_for_status response_text u = inr html) ->
let r := main_with requests_get raise_for_status response_text BeautifulSoup urls in
exists courses,
  raised r = None /\
  written r = Some (out_path, courses) /\
  estimated r = Some (Z.of_nat (List.length courses)).
Proof.
intros H r. subst r. unfold main_with.
destruct (first_pass_success _ _ requests_get raise_for_status response_text
            BeautifulSoup urls [] [] 0%Z H) as [new ->].
simpl app.
destruct (second_pass_of_first exn BeautifulSoup new)
  as (Eest & st & lines & line & b' & -> & U & Hc & _).
unfold finish. rewrite U.
exists (all_courses st). simpl. repeat split.
now rewrite Eest, Hc.
Qed.

End DriverClaims.


(** The same run, by what it leaves behind: the exception is that of
    the status 503, and the two first URLs have been requested. *)
Example run_with_server_error :
let r := main server_error_at_second raise_for_error_status snd sample_parser in
raised r = Some (RequestError 503) /\ written r = None /\ printed r = [] /\
requested_urls r = firstn 2 URLS.
Proof. vm_compute. auto. Qed.

(** A connection that fails at the second URL ends the run alike. *)
Example run_with_connection_error :
let r := main network_down_at_second status_ok body_of sample_parser in
raised r = Some (RequestError 503) /\ written r = None /\ printed r = [] /\
requested_urls r = firstn 2 URLS.
Proof. vm_compute. auto. Qed.

Lemma headerless_block_is_skipped_witness :
let r := block_step (exn := nat) (nth 0 URLS []) sample_state sample_notice_block in
snd r = None /\
skipped (fst r) = (skipped sample_state + 1)%Z /\
all_courses (fst r) = all_courses sample_state /\
parse_course sample_notice_block (nth 0 URLS []) = None.
Proof.
apply (headerless_block_is_skipped nat (nth 0 URLS []) sample_state sample_notice_block);
  vm_compute; reflexivity.
Defined.

Lemma first_pass_count_is_output_size_witness :
let r := main_with network_up status_ok body_of sample_parser URLS in
exists courses,
  raised r = None /\
  written r = Some (out_path, courses) /\
  estimated r = Some (Z.of_nat (List.length courses)).
Proof.
apply (first_pass_count_is_output_size nat text network_up status_ok body_of
         sample_parser URLS).
intros u _. exists (L "<html></html>"). reflexivity.
Defined.


Lemma parse_course_required_fields_witness :
  exists c,
    parse_course sample_course_block (nth 0 URLS []) = Some c /\
    subject c <> [] /\ number c <> [] /\ title c <> [].
Proof.
  eexists. split; [vm_compute; reflexivity|].
  apply (parse_course_required_fields sample_course_block (nth 0 URLS [])).
  vm_compute. reflexivity.
Defined.

(** ** The matcher: which match it finds *)

Lemma rep_greedy_longest {A} cls lo hi :
  forall s n p (k : cursor -> option A) x,
    lo <= n + run_length cls hi n s ->
    k {| pos := p + run_length cls hi n s;
         rest := skipn (run_length cls hi n s) s |} = Some x ->
    rep cls lo hi true n s p k = Some x.
Proof.
  induction s as [|c s IH]; intros n p k x Hlo Hk; simpl in *.
  - rewrite Nat.add_0_r in *. apply Nat.leb_le in Hlo. now rewrite Hlo.
  - destruct (cls c && below n hi); simpl in *.
    + rewrite (IH (S n) (S p) k x); [reflexivity | lia |].
      now replace (S p + run_length cls hi (S n) s)
        with (p + S (run_length cls hi (S n) s)) by lia.
    + rewrite Nat.add_0_r in *. apply Nat.leb_le in Hlo. now rewrite Hlo.
Qed.

Lemma rep_lazy_shortest {A} cls lo :
  forall taken s' n p (k : cursor -> option A) x,
    forallb cls taken = true ->
    lo <= n + List.length taken ->
    k {| pos := p + List.length taken; rest := s' |} = Some x ->
    (forall i, i < List.length taken -> lo <= n + i ->
               k {| pos := p + i; rest := skipn i (taken ++ s') |} = None) ->
    rep cls lo None false n (taken ++ s') p k = Some x.
Proof.
  induction taken as [|c taken IH]; intros s' n p k x Hall Hlo Hk Hnone; simpl in *.
  - rewrite Nat.add_0_r in *. apply Nat.leb_le in Hlo.
    destruct s' as [|c s']; simpl; rewrite Hlo, ?Hk; [reflexivity|].
    destruct (cls c); simpl; reflexivity.
  - apply andb_true_iff in Hall as [Hc Hall]. rewrite Hc. simpl.
    assert (Hstop : (if lo <=? n
                     then k {| pos := p; rest := c :: taken ++ s' |}
                     else None) = None).
    { destruct (lo <=? n) eqn:E; [|reflexivity]. apply Nat.leb_le in E.
      specialize (Hnone 0). simpl in Hnone. rewrite !Nat.add_0_r in Hnone.
      apply Hnone; lia. }
    rewrite Hstop. apply IH; auto; try lia.
    + now replace (S p + List.length taken) with (p + S (List.length taken)) by lia.
    + intros i Hi Hlo'. specialize (Hnone (S i)). simpl in Hnone.
      replace (S p + i) with (p + S i) by lia. apply Hnone; lia.
Qed.

Lemma rep_fails {A} cls lo hi greedy :
  forall s n p (k : cursor -> option A),
    (forall taken s', s = taken ++ s' -> forallb cls taken = true ->
                      k {| pos := p + List.length taken; rest := s' |} = None) ->
    rep cls lo hi greedy n s p k = None.
Proof.
  induction s as [|c s IH]; intros n p k H.
  - simpl. specialize (H [] [] eq_refl eq_refl). simpl in H.
    rewrite Nat.add_0_r in H. rewrite H. now destruct (lo <=? n).
  - assert (Hstop : (if lo <=? n then k {| pos := p; rest := c :: s |} else None) = None).
    { specialize (H [] (c :: s) eq_refl eq_refl). simpl in H.
      rewrite Nat.add_0_r in H. rewrite H. now destruct (lo <=? n). }
    simpl. rewrite Hstop.
    destruct (cls c && below n hi) eqn:E; [|reflexivity].
    apply andb_true_iff in E as [Hc _].
    rewrite IH; [now destruct greedy|].
    intros taken s' -> Ht. specialize (H (c :: taken) s' eq_refl). simpl in H.
    rewrite Hc, Ht in H. replace (S p + List.length taken)
      with (p + S (List.length taken)) by lia. now apply H.
Qed.

(** The length of the run a greedy repetition takes. *)
Lemma run_length_le cls hi : forall s n, run_length cls hi n s <= List.length s.
Proof.
  induction s as [|c s IH]; intros n; simpl; [lia|].
  destruct (cls c && below n hi); [specialize (IH (S n))|]; lia.
Qed.

Lemma run_length_taken cls hi :
  forall s n, forallb cls (firstn (run_length cls hi n s) s) = true.
Proof.
  induction s as [|c s IH]; intros n; simpl; [reflexivity|].
  destruct (cls c && below n hi) eqn:E; simpl; [|reflexivity].
  apply andb_true_iff in E as [-> _]. simpl. apply IH.
Qed.

Lemma run_length_bound cls h :
  forall s n, n <= h -> n + run_length cls (Some h) n s <= h.
Proof.
  induction s as [|c s IH]; intros n Hn; simpl; [lia|].
  destruct (cls c && (n <? h)) eqn:E; [|lia].
  apply andb_true_iff in E as [_ E]. apply Nat.ltb_lt in E.
  specialize (IH (S n)). lia.
Qed.

Lemma run_length_whole cls hi :
  forall t s n,
    forallb cls t = true ->
    (forall h, hi = Some h -> n + List.length t <= h) ->
    stops_run cls s ->
    run_length cls hi n (t ++ s) = List.length t.
Proof.
  induction t as [|c t IH]; intros s n Ht Hhi Hs; simpl in *.
  - destruct s as [|c s]; [reflexivity|]. simpl in *. now rewrite Hs.
  - apply andb_true_iff in Ht as [Hc Ht]. rewrite Hc.
    assert (Hb : below n hi = true).
    { destruct hi as [h|]; [|reflexivity]. simpl. apply Nat.ltb_lt.
      specialize (Hhi h eq_refl). lia. }
    rewrite Hb. simpl. f_equal. apply IH; auto.
    intros h Eh. specialize (Hhi h Eh). lia.
Qed.

Lemma run_length_stop cls hi :
  forall t s n,
    stops_run cls s ->
    run_length cls hi n (t ++ s) = run_length cls hi n t.
Proof.
  induction t as [|c t IH]; intros s n Hs; simpl.
  - destruct s as [|c s]; [reflexivity|]. simpl in *. now rewrite Hs.
  - destruct (cls c && below n hi); [f_equal; now apply IH | reflexivity].
Qed.

Lemma run_length_at_least cls h :
  forall s k n,
    forallb cls (firstn k s) = true -> k <= List.length s -> n + k <= h ->
    k <= run_length cls (Some h) n s.
Proof.
  induction s as [|c s IH]; intros k n Hk Hlen Hh; simpl in *; [lia|].
  destruct k as [|k]; [lia|]. simpl in Hk.
  apply andb_true_iff in Hk as [Hc Hk]. rewrite Hc.
  assert (E : (n <? h) = true) by (apply Nat.ltb_lt; lia). rewrite E. simpl.
  apply le_n_S. apply IH; auto; lia.
Qed.

Lemma skipn_exact (t s : text) : skipn (List.length t) (t ++ s) = s.
Proof. induction t; simpl; auto. Qed.

Lemma takes_greedy cls lo hi (t s' : text) :
  run_length cls hi 0 (t ++ s') = List.length t ->
  lo <= List.length t ->
  takes (Rep cls lo hi true) t s' (fun g => g).
Proof.
  intros Hrun Hlo A p g k x Hk. simpl.
  apply rep_greedy_longest; rewrite Hrun; [lia|].
  now rewrite skipn_exact.
Qed.

Lemma takes_Chr cls (c : ascii) (s' : text) :
  cls c = true -> takes (Chr cls) [c] s' (fun g => g).
Proof.
  intros Hc A p g k x Hk. simpl in *. rewrite Hc.
  now rewrite Nat.add_1_r in Hk.
Qed.

Lemma takes_Eol (s' : text) :
  at_eol s' = true -> takes Eol [] s' (fun g => g).
Proof.
  intros H A p g k x Hk. simpl in *. rewrite H.
  now rewrite Nat.add_0_r in Hk.
Qed.

Lemma takes_Seq r1 r2 (t1 t2 s' : text) gs1 gs2 :
  takes r1 t1 (t2 ++ s') gs1 -> takes r2 t2 s' gs2 ->
  takes (Seq r1 r2) (t1 ++ t2) s' (fun g => gs2 (gs1 g)).
Proof.
  intros H1 H2 A p g k x Hk. simpl. rewrite <- app_assoc.
  apply H1. apply H2.
  now rewrite length_app, Nat.add_assoc in Hk.
Qed.

Lemma takes_Grp i r (t s' : text) gs :
  takes r t s' gs -> takes (Grp i r) t s' (fun g => (i, t) :: gs g).
Proof.
  intros H A p g k x Hk. simpl. apply H. simpl.
  rewrite (firstn_exact t s' (p + List.length t - p)); [assumption|].
  rewrite Nat.add_comm. apply Nat.add_sub.
Qed.

(** A lazy repetition before white space and the end of the text takes
    everything up to the end when the text does not end with white
    space. *)
Lemma takes_lazy_to_end cls i (t : text) :
  forallb cls t = true -> t <> [] ->
  (forall a b, t = a ++ b -> b <> [] -> forallb is_space b = false) ->
  takes (Seq (Grp i (Rep cls 1 None false)) (Seq (Rep is_space 0 None true) Eol))
        t [] (fun g => (i, t) :: g).
Proof.
  intros Hall Hne Hend A p g k x Hk. simpl.
  generalize (rep_lazy_shortest (A := A) cls 1 t [] 0 p).
  rewrite app_nil_r. intros Hlazy. apply Hlazy; clear Hlazy; auto.
  - destruct t; [congruence | simpl; lia].
  - simpl.
    replace (p + List.length t - p) with (List.length t)
      by (rewrite Nat.add_comm; symmetry; apply Nat.add_sub).
    now rewrite firstn_all.
  - intros j Hj _. simpl.
    apply rep_fails. intros taken s' E Ht. simpl.
    assert (Hs' : at_eol s' = false).
    { destruct (at_eol s') eqn:Eeol; [|reflexivity]. exfalso.
      apply at_eol_space in Eeol.
      assert (Hb : forallb is_space (skipn j t) = false).
      { apply (Hend (firstn j t)); [now rewrite firstn_skipn|].
        intros E0. apply (f_equal (@List.length ascii)) in E0.
        rewrite length_skipn in E0. simpl in E0. lia. }
      rewrite E, forallb_app, Ht, Eeol in Hb. discriminate. }
    now rewrite Hs'.
Qed.

(** ** Normalized text *)

Lemma sub_spaces_blank (b : bool) (s : text) (c : ascii) :
  In c (sub_spaces b s) -> is_space c = true -> c = " ".
Proof.
  revert b. induction s as [|a s IH]; intros b; simpl; [intros []|].
  destruct (is_space a) eqn:Ha.
  - destruct b; simpl; [apply IH|]. intros [<- | H]; [reflexivity | eauto].
  - simpl. intros [<- | H] Hc; [congruence | eauto].
Qed.

Lemma In_strip (s : text) (c : ascii) : In c (strip s) -> In c s.
Proof.
  unfold strip. intros H.
  destruct (lstrip_split s) as [w [E _]]. rewrite E. apply in_or_app. right.
  destruct (rstrip_split (lstrip s)) as [w' [E' _]]. rewrite E'.
  apply in_or_app. now left.
Qed.

Lemma norm_space_blank (s : text) (c : ascii) :
  In c (norm_space s) -> is_space c = true -> c = " ".
Proof. intros H. apply In_strip in H. revert H. apply sub_spaces_blank. Qed.

Lemma normalized_dot (t : text) : norm_space t = t -> forallb cls_dot t = true.
Proof.
  intros E. apply forallb_forall. intros c Hc. rewrite <- E in Hc.
  destruct (cls_dot c) eqn:D; [reflexivity|].
  rewrite (norm_space_blank t c Hc (newline_is_space c D)) in D. discriminate.
Qed.

Lemma normalized_head (t : text) (c : ascii) (r : text) :
  norm_space t = t -> t = c :: r -> is_space c = false.
Proof.
  intros E ->. unfold norm_space, strip in E.
  destruct (rstrip_split (lstrip (sub_spaces false (c :: r)))) as [w [E' _]].
  rewrite E in E'. simpl in E'. eapply lstrip_head. exact E'.
Qed.

Lemma normalized_end (t a b : text) :
  norm_space t = t -> t = a ++ b -> b <> [] -> forallb is_space b = false.
Proof.
  intros E Et Hb. destruct (forallb is_space b) eqn:F; [|reflexivity].
  exfalso. apply Hb. apply (norm_space_no_trailing t a b); congruence.
Qed.

(** ** Character classes *)

Ltac ranges :=
  unfold cls_upper_digit, cls_upper, cls_digit, cls_is, is_space, cls_dot,
    cls_not_rparen, cls_not_paren, in_range in *;
  repeat match goal with
         | H : _ && _ = true |- _ => apply andb_true_iff in H; destruct H
         | H : _ || _ = true |- _ => apply orb_true_iff in H; destruct H
         | H : (_ <=? _) = true |- _ => apply Nat.leb_le in H
         | H : (_ =? _) = true |- _ => apply Nat.eqb_eq in H
         end.

Lemma upper_not_space (c : ascii) : cls_upper c = true -> is_space c = false.
Proof.
  intros H. destruct (is_space c) eqn:E; [|reflexivity]. ranges; lia.
Qed.

Lemma digit_not_space (c : ascii) : cls_digit c = true -> is_space c = false.
Proof.
  intros H. destruct (is_space c) eqn:E; [|reflexivity]. ranges; lia.
Qed.

Lemma digit_upper_digit (c : ascii) : cls_digit c = true -> cls_upper_digit c = true.
Proof. intros H. unfold cls_upper_digit. rewrite H. apply orb_true_r. Qed.

Lemma space_not_upper_digit (c : ascii) : is_space c = true -> cls_upper_digit c = false.
Proof.
  intros H. destruct (cls_upper_digit c) eqn:E; [|reflexivity]. ranges; lia.
Qed.

Lemma not_upper_digit_not_digit (c : ascii) :
  cls_upper_digit c = false -> cls_digit c = false.
Proof.
  intros H. destruct (cls_digit c) eqn:E; [|reflexivity].
  now rewrite (digit_upper_digit c E) in H.
Qed.

Lemma forallb_skipn {A} (f : A -> bool) (n : nat) (l : list A) :
  forallb f l = true -> forallb f (skipn n l) = true.
Proof.
  intros H. rewrite <- (firstn_skipn n l), forallb_app in H.
  now apply andb_true_iff in H.
Qed.

Lemma takes_spaces (lo : nat) (w s' : text) :
  forallb is_space w = true -> lo <= List.length w -> stops_run is_space s' ->
  takes (Rep is_space lo None true) w s' (fun g => g).
Proof.
  intros Hw Hlo Hs. apply takes_greedy; [|assumption].
  apply run_length_whole; auto. discriminate.
Qed.

Lemma takes_subject (subj s' : text) :
  is_subject subj = true -> stops_run cls_upper s' ->
  takes re_subject subj s' (fun g => g).
Proof.
  unfold is_subject. intros H Hs.
  apply andb_true_iff in H as [H Hhi]. apply andb_true_iff in H as [Hall Hlo].
  apply Nat.leb_le in Hlo, Hhi. unfold len in *.
  apply takes_greedy; [|assumption].
  apply run_length_whole; auto. intros h E. injection E as <-. lia.
Qed.

Lemma is_number_split (num : text) :
  is_number num = true ->
  exists k, 1 <= k <= 3 /\ k <= List.length num /\
            forallb cls_digit (firstn k num) = true /\
            forallb cls_upper_digit (skipn k num) = true /\
            List.length num - k <= 6.
Proof.
  unfold is_number. intros H. apply existsb_exists in H as (k & Hk & H).
  repeat (apply andb_true_iff in H as [H ?]).
  exists k. unfold len in *.
  repeat match goal with
         | H : (_ <=? _) = true |- _ => apply Nat.leb_le in H
         end.
  repeat split; auto; simpl in Hk; lia.
Qed.

Lemma takes_number (num s' : text) :
  is_number num = true -> stops_run cls_upper_digit s' ->
  takes re_number num s' (fun g => g).
Proof.
  intros H Hs. apply is_number_split in H as (k & Hk & Hlen & Hd & Hu & Hrest).
  set (d := run_length cls_digit (Some 3) 0 num).
  assert (Hdk : k <= d) by (apply run_length_at_least; auto; lia).
  assert (Hd3 : d <= 3) by (apply (run_length_bound cls_digit 3 num 0); lia).
  assert (Hdn : d <= List.length num) by apply run_length_le.
  assert (Hall : forallb cls_upper_digit num = true).
  { rewrite <- (firstn_skipn k num), forallb_app, Hu, andb_true_r.
    apply forallb_forall. intros c Hc. apply digit_upper_digit.
    revert c Hc. now apply forallb_forall. }
  assert (Hs_digit : stops_run cls_digit s').
  { destruct s' as [|c s']; [exact I|]. now apply not_upper_digit_not_digit. }
  rewrite <- (firstn_skipn d num).
  change (fun g : groups => g) with (fun g : groups => (fun g => g) ((fun g => g) g)).
  apply takes_Seq.
  - apply takes_greedy.
    + rewrite app_assoc, firstn_skipn, run_length_stop by assumption.
      fold d. rewrite length_firstn. lia.
    + rewrite length_firstn. lia.
  - apply takes_greedy; [|lia].
    apply run_length_whole; auto.
    + now apply forallb_skipn.
    + intros h E. injection E as <-. rewrite length_skipn. lia.
Qed.

Lemma match_takes (r : regex) (t : text) (gs : groups -> groups) :
  takes r t [] gs -> re_match (Seq Bol r) t = Some (gs []).
Proof.
  intros H. unfold re_match. simpl. rewrite <- (app_nil_r t) at 1.
  now apply H.
Qed.

Lemma is_subject_head (subj : text) :
  is_subject subj = true -> exists c r, subj = c :: r /\ cls_upper c = true.
Proof.
  unfold is_subject. intros H. destruct subj as [|c r]; [discriminate|].
  exists c, r. split; [reflexivity|].
  apply andb_true_iff in H as [H _]. apply andb_true_iff in H as [H _].
  simpl in H. now apply andb_true_iff in H.
Qed.

Lemma is_number_head (num : text) :
  is_number num = true -> exists c r, num = c :: r /\ cls_digit c = true.
Proof.
  intros H. apply is_number_split in H as (k & Hk & Hlen & Hd & _).
  destruct num as [|c r]; [simpl in Hlen; lia|].
  destruct k as [|k]; [lia|]. simpl in Hd.
  exists c, r. split; [reflexivity|]. now apply andb_true_iff in Hd.
Qed.

(** The header pattern on a text of the shape "SUBJ NUM. Title". *)
Lemma header_match_complete (subj num ttl : text) :
  is_subject subj = true -> is_number num = true ->
  norm_space ttl = ttl -> ttl <> [] ->
  re_match COURSE_HEADER_RE (subj ++ L " " ++ num ++ L ". " ++ ttl)
  = Some [(3, ttl); (2, num); (1, subj)].
Proof.
  intros Hsubj Hnum Hnorm Hne.
  destruct (is_subject_head subj Hsubj) as (c1 & r1 & E1 & Hc1).
  destruct (is_number_head num Hnum) as (c2 & r2 & E2 & Hc2).
  assert (Hc3 : stops_run is_space ttl).
  { destruct ttl as [|c3 r3] eqn:E3; [congruence|]. rewrite <- E3 in Hnorm.
    simpl. eapply normalized_head; eassumption. }
  unfold COURSE_HEADER_RE. cbn [seq].
  change (subj ++ L " " ++ num ++ L ". " ++ ttl)
    with ([] ++ subj ++ [" "] ++ num ++ [] ++ ["."] ++ [" "] ++ ttl).
  match goal with
  | |- re_match (Seq Bol ?r) ?t = _ =>
      eassert (T : takes r t [] _)
  end.
  { eapply takes_Seq with (t1 := []).
    { apply takes_spaces; [reflexivity | simpl; lia |].
      rewrite E1. simpl. now apply upper_not_space. }
    eapply takes_Seq with (t1 := subj).
    { apply takes_Grp, takes_subject; [assumption | reflexivity]. }
    eapply takes_Seq with (t1 := [" "]).
    { apply takes_spaces; [reflexivity | simpl; lia |].
      rewrite E2. simpl. now apply digit_not_space. }
    eapply takes_Seq with (t1 := num).
    { apply takes_Grp, takes_number; [assumption | reflexivity]. }
    eapply takes_Seq with (t1 := []).
    { apply takes_spaces; [reflexivity | simpl; lia | reflexivity]. }
    eapply takes_Seq with (t1 := ["."]).
    { now apply takes_Chr. }
    eapply takes_Seq with (t1 := [" "]).
    { apply takes_spaces; [reflexivity | simpl; lia |].
      now rewrite app_nil_r. }
    apply takes_lazy_to_end; [now apply normalized_dot | assumption |].
    intros a b. now apply normalized_end. }
  exact (match_takes _ _ _ T).
Qed.

Lemma sub_spaces_single_spaced (s : text) :
  forall b, single_spaced b (sub_spaces b s) = true.
Proof.
  induction s as [|c s IH]; intros b; simpl; [reflexivity|].
  destruct (is_space c) eqn:Hc.
  - destruct b; [apply IH|]. simpl. apply IH.
  - simpl. rewrite Hc. apply IH.
Qed.

Lemma single_spaced_fixed (s : text) :
  forall b, single_spaced b s = true -> sub_spaces b s = s.
Proof.
  induction s as [|c s IH]; intros b; simpl; [reflexivity|].
  destruct (is_space c) eqn:Hc.
  - intros H. apply andb_true_iff in H as [H Hs]. apply andb_true_iff in H as [Hc' Hb].
    apply Ascii.eqb_eq in Hc'. apply negb_true_iff in Hb. subst.
    f_equal. now apply IH.
  - intros H. f_equal. now apply IH.
Qed.

Lemma single_spaced_weaken (s : text) (b : bool) :
  single_spaced b s = true -> single_spaced false s = true.
Proof.
  destruct s as [|c s]; simpl; [reflexivity|].
  destruct (is_space c); [|trivial].
  intros H. apply andb_true_iff in H as [H Hs]. apply andb_true_iff in H as [Hc _].
  now rewrite Hc, Hs.
Qed.

Lemma single_spaced_app (s1 s2 : text) :
  forall b, single_spaced b (s1 ++ s2) = true ->
            single_spaced b s1 = true /\ single_spaced false s2 = true.
Proof.
  induction s1 as [|c s1 IH]; intros b; simpl.
  - intros H. split; [reflexivity|]. now apply single_spaced_weaken in H.
  - destruct (is_space c).
    + intros H. apply andb_true_iff in H as [H Hs]. rewrite H. simpl. now apply IH.
    + apply IH.
Qed.

Lemma single_spaced_after_blank (a t : text) :
  forall b, single_spaced b (a ++ " " :: t) = true -> stops_run is_space t.
Proof.
  induction a as [|c a IH]; intros b; simpl.
  - intros H. apply andb_true_iff in H as [_ H].
    destruct t as [|c t]; [exact I|]. simpl in *.
    destruct (is_space c); [|reflexivity].
    rewrite andb_false_r in H. discriminate.
  - destruct (is_space c).
    + intros H. apply andb_true_iff in H as [_ H]. eauto.
    + eauto.
Qed.

Lemma norm_space_single_spaced (s : text) :
  single_spaced false (norm_space s) = true.
Proof.
  unfold norm_space, strip.
  pose proof (sub_spaces_single_spaced s false) as H.
  destruct (lstrip_split (sub_spaces false s)) as [w [E _]].
  rewrite E in H. apply single_spaced_app in H as [_ H].
  destruct (rstrip_split (lstrip (sub_spaces false s))) as [w' [E' _]].
  rewrite E' in H. now apply single_spaced_app in H as [H _].
Qed.

Lemma rstrip_fixed (t : text) :
  (forall a b, t = a ++ b -> forallb is_space b = true -> b = []) ->
  rstrip t = t.
Proof.
  intros H. destruct (rstrip_split t) as [w [E Hw]].
  rewrite (H _ _ E Hw), app_nil_r in E. now symmetry.
Qed.

Lemma lstrip_stops (t : text) : stops_run is_space t -> lstrip t = t.
Proof. destruct t as [|c t]; simpl; [reflexivity|]. now intros ->. Qed.

(** On single-spaced text, normalizing is stripping. *)
Lemma norm_space_strip (t : text) :
  single_spaced false t = true -> norm_space t = strip t.
Proof. intros H. unfold norm_space. now rewrite single_spaced_fixed. Qed.

(** The end of a normalized text, from a character that is not white
    space, is normalized. *)
Lemma normalized_suffix (raw a b : text) :
  norm_space raw = a ++ b -> stops_run is_space b -> norm_space b = b.
Proof.
  intros E Hb.
  assert (Hs : single_spaced false b = true).
  { pose proof (norm_space_single_spaced raw) as H. rewrite E in H.
    now apply single_spaced_app in H. }
  rewrite norm_space_strip by assumption. unfold strip.
  rewrite lstrip_stops by assumption. apply rstrip_fixed.
  intros a' b' -> Hb'. rewrite app_assoc in E.
  now apply norm_space_no_trailing in E.
Qed.

Lemma normalized_after_blank (raw a t : text) :
  norm_space raw = a ++ " " :: t -> norm_space t = t.
Proof.
  intros E. apply (normalized_suffix raw (a ++ [" "]) t).
  - now rewrite <- app_assoc.
  - pose proof (norm_space_single_spaced raw) as H. rewrite E in H.
    now apply single_spaced_after_blank in H.
Qed.

(** ** The header: texts of the shape "SUBJ NUM. Title" *)

Lemma header_text_match (raw subj num ttl : text) :
  norm_space raw = subj ++ L " " ++ num ++ L ". " ++ ttl ->
  is_subject subj = true -> is_number num = true -> ttl <> [] ->
  option_map header_of_match (re_match COURSE_HEADER_RE (norm_space raw))
  = Some (subj, num, ttl).
Proof.
  intros E Hs Hn Ht.
  assert (Hnorm : norm_space ttl = ttl).
  { apply (normalized_after_blank raw (subj ++ L " " ++ num ++ ["."])).
    rewrite E, <- !app_assoc. reflexivity. }
  rewrite E, header_match_complete by assumption.
  unfold header_of_match. simpl. now rewrite Hnorm.
Qed.

(** C2, as amended: a block whose header text is "SUBJ NUM. Title",
    with a subject of 2 to 10 letters of A-Z and a number of 1 to 3
    digits and at most 6 letters of A-Z or digits, yields that subject,
    number and title; so "XYZ 100. Intro to Things" yields "XYZ", "100"
    and "Intro to Things". *)
Theorem header_text_is_parsed (course_div header_el : element) (subj num ttl : text) :
  select_one (SelClass (L "span") (L "CourseIdAndTitle")) course_div = Some header_el \/
  (select_one (SelClass (L "span") (L "CourseIdAndTitle")) course_div = None /\
   find (L "b") course_div = Some header_el) ->
  element_text header_el = subj ++ L " " ++ num ++ L ". " ++ ttl ->
  is_subject subj = true -> is_number num = true -> ttl <> [] ->
  extract_course_header course_div = Some (subj, num, ttl).
Proof.
  intros Hel Htxt Hs Hn Ht.
  pose proof (header_text_match _ subj num ttl Htxt Hs Hn Ht) as M.
  fold (element_text header_el) in M.
  unfold extract_course_header.
  destruct Hel as [Hel | [Hnone Hel]].
  - unfold header_from_id_title. rewrite Hel. fold (element_text header_el).
    destruct (re_match COURSE_HEADER_RE (element_text header_el)); [|discriminate].
    cbn [option_map] in M. cbn beta iota. exact M.
  - unfold header_from_id_title, header_from_first_b. rewrite Hnone, Hel.
    fold (element_text header_el).
    destruct (re_match COURSE_HEADER_RE (element_text header_el)); [|discriminate].
    cbn [option_map] in M. cbn beta iota. exact M.
Qed.

(** C2, as stated, fails on a number that ends with a lower-case
    letter, an alphanumeric: no header is found; and on a subject that
    begins with an upper-case letter beyond A-Z: the header found has
    another subject. *)
Lemma header_text_not_as_stated :
  (let cd := header_block lower_case_number_header in
   option_map element_text
     (select_one (SelClass (L "span") (L "CourseIdAndTitle")) cd)
   = Some (L "XYZ" ++ L " " ++ L "100a" ++ L ". " ++ L "Intro to Things") /\
   is_subject_as_stated (L "XYZ") = true /\
   is_number_as_stated (L "100a") = true /\
   extract_course_header cd = None) /\
  (let subj := ascii_of_nat 201 :: L "CO" in
   let cd := header_block accented_subject_header in
   option_map element_text
     (select_one (SelClass (L "span") (L "CourseIdAndTitle")) cd)
   = Some (subj ++ L " " ++ L "100" ++ L ". " ++ L "Intro to Things") /\
   is_subject_as_stated subj = true /\
   is_number_as_stated (L "100") = true /\
   extract_course_header cd = Some (L "CO", L "100", L "Intro to Things") /\
   extract_course_header cd <> Some (subj, L "100", L "Intro to Things")).
Proof.
  repeat split; try (vm_compute; reflexivity); vm_compute; discriminate.
Qed.

Lemma header_text_is_parsed_witness :
  element_text (nth 0 (descendants sample_course_block) sample_course_block)
  = L "XYZ 100. Intro to Things" /\
  extract_course_header sample_course_block
  = Some (L "XYZ", L "100", L "Intro to Things").
Proof.
  split; [vm_compute; reflexivity|].
  apply (header_text_is_parsed sample_course_block
           (nth 0 (descendants sample_course_block) sample_course_block)
           (L "XYZ") (L "100") (L "Intro to Things")).
  - left. vm_compute. reflexivity.
  - vm_compute. reflexivity.
  - vm_compute. reflexivity.
  - vm_compute. reflexivity.
  - discriminate.
Defined.

(** ** Units and instructors *)

Lemma break_at_spec (ch : ascii) (s a b : text) :
  break_at ch s = Some (a, b) ->
  s = a ++ ch :: b /\ forallb (fun c => negb (Ascii.eqb c ch)) a = true.
Proof.
  revert a b. induction s as [|c s IH]; intros a b; simpl; [discriminate|].
  destruct (Ascii.eqb c ch) eqn:E.
  - intros H. injection H as <- <-. apply Ascii.eqb_eq in E. subst. auto.
  - destruct (break_at ch s) as [[a' b']|]; [|discriminate].
    intros H. injection H as <- <-. destruct (IH a' b' eq_refl) as [-> H].
    simpl. rewrite E, H. auto.
Qed.

Lemma break_at_found (ch : ascii) (a b : text) :
  forallb (fun c => negb (Ascii.eqb c ch)) a = true ->
  break_at ch (a ++ ch :: b) = Some (a, b).
Proof.
  induction a as [|c a IH]; simpl.
  - now rewrite Ascii.eqb_refl.
  - intros H. apply andb_true_iff in H as [Hc Ha].
    apply negb_true_iff in Hc. now rewrite Hc, IH.
Qed.

Lemma split_head (sep : ascii) (s : text) :
  exists piece pieces b, split sep s = piece :: pieces /\ s = piece ++ b.
Proof.
  induction s as [|c s (piece & pieces & b & E & Es)]; simpl.
  - exists [], [], []. auto.
  - destruct (Ascii.eqb c sep).
    + exists [], (split sep s), (c :: s). auto.
    + rewrite E. exists (c :: piece), pieces, b. simpl. now rewrite <- Es.
Qed.

Lemma split_In (sep : ascii) (s x : text) :
  In x (split sep s) -> exists a b, s = a ++ x ++ b.
Proof.
  revert x. induction s as [|c s IH]; intros x; simpl.
  - intros [<- | []]. exists [], []. reflexivity.
  - destruct (Ascii.eqb c sep).
    + intros [<- | H]; [exists [], (c :: s); reflexivity|].
      destruct (IH x H) as (a & b & ->). exists (c :: a), b. reflexivity.
    + destruct (split_head sep s) as (piece & pieces & b & E & Es).
      rewrite E. intros [<- | H].
      * exists [], b. simpl. now rewrite <- Es.
      * destruct (IH x) as (a & b' & ->); [rewrite E; now right|].
        exists (c :: a), b'. reflexivity.
Qed.

Lemma single_spaced_piece (sep : ascii) (s x : text) :
  single_spaced false s = true -> In x (split sep s) ->
  single_spaced false x = true.
Proof.
  intros H Hx. destruct (split_In sep s x Hx) as (a & b & ->).
  apply single_spaced_app in H as [_ H]. now apply single_spaced_app in H as [H _].
Qed.

Lemma filter_map_pieces (pieces : list text) :
  (forall x, In x pieces -> norm_space x = strip x) ->
  map norm_space (filter (fun x => nonempty (norm_space x)) pieces)
  = filter nonempty (map strip pieces).
Proof.
  induction pieces as [|x pieces IH]; intros H; simpl; [reflexivity|].
  rewrite (H x (or_introl eq_refl)).
  destruct (nonempty (strip x)); simpl;
    rewrite IH by (intros y Hy; apply H; now right);
    [now rewrite (H x (or_introl eq_refl)) | reflexivity].
Qed.

Lemma instructors_of_as_stated (t : text) :
  single_spaced false t = true -> instructors_of t = instructors_as_stated t.
Proof.
  intros H. unfold instructors_of, instructors_as_stated.
  destruct (nonempty t); [|reflexivity].
  destruct (text_eqb _ _); [reflexivity|].
  apply filter_map_pieces. intros x Hx.
  apply norm_space_strip. eapply single_spaced_piece; eassumption.
Qed.

Lemma norm_space_idem (s : text) : norm_space (norm_space s) = norm_space s.
Proof.
  apply (normalized_suffix s [] (norm_space s)); [reflexivity|].
  destruct (norm_space s) as [|c r] eqn:E; [exact I|]. simpl.
  unfold norm_space, strip in E.
  destruct (rstrip_split (lstrip (sub_spaces false s))) as [w [E' _]].
  rewrite E in E'. simpl in E'. eapply lstrip_head. exact E'.
Qed.

Lemma strip_lstrip (s : text) : strip (lstrip s) = strip s.
Proof. unfold strip. now rewrite lstrip_idem. Qed.

Lemma not_rparen_iff (a : text) :
  forallb cls_not_rparen a = forallb (fun c => negb (Ascii.eqb c ")")) a.
Proof. reflexivity. Qed.

(** The units pattern on a text that opens with a group. *)
Lemma units_match_complete (content remainder : text) :
  content <> [] -> forallb cls_not_rparen content = true ->
  forallb cls_dot remainder = true ->
  re_match UNITS_RE (L "(" ++ content ++ L ")" ++ remainder)
  = Some [(2, lstrip remainder); (1, content)].
Proof.
  intros Hne Hcontent Hdot.
  destruct (lstrip_split remainder) as [w [E Hw]].
  assert (Hdot' : forallb cls_dot (lstrip remainder) = true).
  { rewrite E, forallb_app in Hdot. now apply andb_true_iff in Hdot. }
  unfold UNITS_RE. cbn [seq].
  rewrite E at 1.
  change (L "(" ++ content ++ L ")" ++ w ++ lstrip remainder)
    with (["("] ++ content ++ [")"] ++ w ++ lstrip remainder).
  rewrite <- (app_nil_r (lstrip remainder)) at 1.
  match goal with
  | |- re_match (Seq Bol ?r) ?t = _ => eassert (T : takes r t [] _)
  end.
  { eapply takes_Seq with (t1 := ["("]).
    { now apply takes_Chr. }
    eapply takes_Seq with (t1 := content).
    { apply takes_Grp, takes_greedy.
      - apply run_length_whole; [assumption | discriminate | reflexivity].
      - destruct content; [congruence | simpl; lia]. }
    eapply takes_Seq with (t1 := [")"]).
    { now apply takes_Chr. }
    eapply takes_Seq with (t1 := w).
    { apply takes_spaces; [assumption | lia |].
      rewrite !app_nil_r.
      destruct (lstrip remainder) as [|c r] eqn:El; [exact I|].
      simpl. eapply lstrip_head. exact El. }
    eapply takes_Seq with (t1 := lstrip remainder) (t2 := []).
    { apply takes_Grp, takes_greedy; [|lia].
      apply run_length_whole; [assumption | discriminate | exact I]. }
    now apply takes_Eol. }
  rewrite (match_takes _ _ _ T). reflexivity.
Qed.

(** When the units pattern matches, the text opens with a group whose
    content is not empty. *)
Lemma units_match_group (txt : text) (m : groups) :
  re_match UNITS_RE txt = Some m ->
  exists content remainder,
    leading_group txt = Some (content, remainder) /\ content <> [].
Proof.
  intros H. apply units_match_sound in H as (u & tail & -> & Hu & Hall).
  exists u, tail. split; [|assumption].
  simpl. now apply break_at_found.
Qed.

Lemma leading_group_spec (txt content remainder : text) :
  leading_group txt = Some (content, remainder) ->
  txt = L "(" ++ content ++ L ")" ++ remainder /\
  forallb cls_not_rparen content = true.
Proof.
  unfold leading_group. destruct txt as [|c s]; [discriminate|].
  destruct (Ascii.eqb c "(") eqn:E; [|discriminate].
  apply Ascii.eqb_eq in E. subst c. intros H.
  apply break_at_spec in H as [-> H]. split; [reflexivity | exact H].
Qed.

(** What [parse_units_and_instructors] makes of the text of the span. *)
Lemma units_and_instructors_of_normalized (raw : text) :
  let txt := norm_space raw in
  (match re_match UNITS_RE txt with
   | Some m => (Some (norm_space (group 1 m)), instructors_of (norm_space (group 2 m)))
   | None => (None, instructors_of txt)
   end) = units_and_instructors_of_text txt.
Proof.
  intros txt. unfold units_and_instructors_of_text.
  assert (Htxt : single_spaced false txt = true) by apply norm_space_single_spaced.
  assert (Hdot : forallb cls_dot txt = true) by apply normalized_dot, norm_space_idem.
  destruct (leading_group txt) as [[content remainder]|] eqn:G.
  - destruct (leading_group_spec _ _ _ G) as [E Hcontent].
    assert (Hparts : single_spaced false content = true /\
                     single_spaced false remainder = true /\
                     forallb cls_dot remainder = true).
    { rewrite E in Htxt, Hdot.
      change (L "(" ++ content ++ L ")" ++ remainder)
        with (["("] ++ content ++ [")"] ++ remainder) in Htxt, Hdot.
      apply single_spaced_app in Htxt as [_ Htxt].
      apply single_spaced_app in Htxt as [Hc Htxt].
      apply single_spaced_app in Htxt as [_ Hr].
      rewrite !forallb_app in Hdot.
      repeat (apply andb_true_iff in Hdot as [? Hdot]). auto. }
    destruct Hparts as (Hc & Hr & Hrdot).
    destruct (nonempty content) eqn:N.
    + apply nonempty_true in N.
      rewrite E, units_match_complete by assumption. simpl group.
      rewrite (norm_space_strip content Hc).
      assert (Hl : norm_space (lstrip remainder) = strip remainder).
      { destruct (lstrip_split remainder) as [w [Er _]].
        rewrite norm_space_strip, strip_lstrip; [reflexivity|].
        rewrite Er in Hr. now apply single_spaced_app in Hr. }
      rewrite Hl, instructors_of_as_stated; [reflexivity|].
      rewrite <- Hl. apply norm_space_single_spaced.
    + apply nonempty_false in N.
      destruct (re_match UNITS_RE txt) as [m|] eqn:M.
      * apply units_match_group in M as (c' & r' & G' & Hc').
        rewrite G in G'. injection G' as <- <-. congruence.
      * now rewrite instructors_of_as_stated.
  - destruct (re_match UNITS_RE txt) as [m|] eqn:M.
    + apply units_match_group in M as (c' & r' & G' & _). congruence.
    + now rewrite instructors_of_as_stated.
Qed.

(** C3, as amended: without the span there are no units and no
    instructors; with it, a leading parenthesized group whose content
    is not empty gives the units (the content trimmed) and leaves the
    remainder, trimmed, as instructor text, and otherwise the whole
    text is instructor text; "STAFF" in any case gives ["STAFF"], any
    other text is split on semicolons, trimmed, without empty pieces. *)
Theorem parse_units_and_instructors_spec (course_div : element) :
  parse_units_and_instructors course_div =
  match select_one (SelClass (L "span") (L "InstructorUnits")) course_div with
  | None => (None, [])
  | Some span => units_and_instructors_of_text (element_text span)
  end.
Proof.
  unfold parse_units_and_instructors.
  destruct (select_one _ course_div) as [span|]; [|reflexivity].
  unfold element_text.
  rewrite <- (units_and_instructors_of_normalized (get_text (L " ") (el_node span))).
  cbv zeta. now destruct (re_match UNITS_RE _).
Qed.

(** C3, as stated, fails on "() STAFF", where the empty group is no
    group for the script, and on "( 4 ) STAFF", where the units are the
    content trimmed. *)
Lemma parse_units_and_instructors_not_as_stated :
  (parse_units_and_instructors (units_block "() STAFF") = (None, [L "() STAFF"]) /\
   units_and_instructors_as_stated (L "() STAFF") = (Some [], [L "STAFF"])) /\
  (parse_units_and_instructors (units_block "( 4 ) STAFF") = (Some (L "4"), [L "STAFF"]) /\
   units_and_instructors_as_stated (L "( 4 ) STAFF") = (Some (L " 4 "), [L "STAFF"])) /\
  parse_units_and_instructors (units_block "() STAFF")
  <> units_and_instructors_as_stated (L "() STAFF") /\
  parse_units_and_instructors (units_block "( 4 ) STAFF")
  <> units_and_instructors_as_stated (L "( 4 ) STAFF").
Proof.
  repeat split; try (vm_compute; reflexivity); vm_compute; discriminate.
Qed.

Lemma ex_units_staff :
  parse_units_and_instructors (units_block "(4) STAFF") = (Some (L "4"), [L "STAFF"]).
Proof. vm_compute. reflexivity. Qed.

Lemma ex_units_names :
  parse_units_and_instructors (units_block "(4-8) Smith, J.; Lee, K.")
  = (Some (L "4-8"), [L "Smith, J."; L "Lee, K."]).
Proof. vm_compute. reflexivity. Qed.

(** ** Labeled fields *)

Lemma field_eqb_eq (a b : field) : field_eqb a b = true <-> a = b.
Proof. destruct a, b; simpl; split; congruence. Qed.

Lemma get_set_field (k f : field) (v : text) (out : labeled) :
  get_field f (set_field k v out) = if field_eqb k f then Some v else get_field f out.
Proof. destruct k, f; reflexivity. Qed.

Lemma wanted_labels (l : text) (f : field) :
  wanted l = Some f <-> In l (labels_of f).
Proof.
  split.
  - unfold wanted.
    repeat match goal with
           | |- context [text_eqb l ?x] =>
               let E := fresh "E" in
               destruct (text_eqb l x) eqn:E;
               [apply text_eqb_eq in E; intros H; injection H as <-;
                rewrite E; simpl; auto|]
           end.
    discriminate.
  - destruct f; simpl; intros H;
      repeat (destruct H as [<- | H]; [vm_compute; reflexivity|]); destruct H.
Qed.

Lemma wanted_existsb (l : text) (f : field) :
  existsb (text_eqb l) (labels_of f) =
  match wanted l with Some k => field_eqb k f | None => false end.
Proof.
  destruct (wanted l) as [k|] eqn:W.
  - destruct (field_eqb k f) eqn:E.
    + apply field_eqb_eq in E. subst k. apply wanted_labels in W.
      apply existsb_exists. exists l. split; [assumption | apply text_eqb_refl].
    + destruct (existsb _ _) eqn:X; [|reflexivity].
      apply existsb_exists in X as (x & Hx & Ex). apply text_eqb_eq in Ex. subst x.
      apply wanted_labels in Hx. rewrite W in Hx. injection Hx as ->.
      assert (field_eqb f f = true) by now apply field_eqb_eq. congruence.
  - destruct (existsb _ _) eqn:X; [|reflexivity].
    apply existsb_exists in X as (x & Hx & Ex). apply text_eqb_eq in Ex. subst x.
    apply wanted_labels in Hx. congruence.
Qed.

Lemma sibling_parts_until_break (siblings : list node) :
  sibling_parts siblings = map node_text (until_break siblings).
Proof.
  induction siblings as [|sib later IH]; simpl; [reflexivity|].
  destruct sib as [plain s | name i cl cs]; simpl.
  - now rewrite IH.
  - unfold is_break. simpl.
    destruct (text_eqb name _); [reflexivity|].
    destruct (text_eqb name _); [reflexivity|].
    simpl. now rewrite IH.
Qed.

Lemma labeled_loop_field (f : field) (strongs : list element) :
  forall out,
    get_field f (fold_left labeled_step strongs out) =
    match last_error (filter (labels_field f) strongs) with
    | Some strong => Some (label_value strong)
    | None => get_field f out
    end.
Proof.
  induction strongs as [|s strongs IH]; intros out; simpl; [reflexivity|].
  rewrite IH.
  assert (Hstep : get_field f (labeled_step out s) =
                  if labels_field f s then Some (label_value s) else get_field f out).
  { unfold labels_field, labeled_step. rewrite wanted_existsb.
    destruct (wanted (label_of s)) as [k|]; [|reflexivity].
    destruct (nonempty (label_value s)).
    - rewrite get_set_field. now destruct (field_eqb k f).
    - now rewrite andb_false_r. }
  rewrite Hstep.
  destruct (labels_field f s); simpl; now destruct (last_error _).
Qed.

Lemma label_value_stated (strong : element) :
  label_value strong = stated_value strong.
Proof. unfold label_value, stated_value. now rewrite sibling_parts_until_break. Qed.

Lemma labels_field_stated (f : field) (strong : element) :
  labels_field f strong = is_label_of f strong.
Proof. unfold labels_field, is_label_of. now rewrite label_value_stated. Qed.

(** C8, as amended: the seven labels name the five fields; a label is a
    [strong] element whose normalized text, without the colons that end
    it and in lower case, is one of them; its text is that of its
    following siblings up to the first [strong] or [br], joined and
    normalized; a field holds the text of the last of its labels that
    some text follows, and is absent when there is none. *)
Theorem extract_labeled_fields_spec (course_div : element) :
  (forall l f, wanted l = Some f <-> In l (labels_of f)) /\
  (forall f,
      get_field f (extract_labeled_fields course_div) =
      option_map stated_value
        (last_error
           (filter (is_label_of f)
              (filter (fun d => has_name (L "strong") (el_node d))
                 (descendants course_div))))).
Proof.
  split; [exact wanted_labels|].
  intros f. unfold extract_labeled_fields. rewrite labeled_loop_field.
  unfold find_all.
  rewrite (filter_ext _ _ (labels_field_stated f)).
  destruct (last_error _) as [strong|]; cbn [option_map].
  - now rewrite label_value_stated.
  - destruct f; reflexivity.
Qed.

(** C8, as stated, fails on a label that no text follows: the script
    stores nothing for it, where the statement stores the empty text;
    on a label in bold, which the script does not look at; and on an
    emphasized word after a label, at which the script does not stop. *)
Lemma extract_labeled_fields_not_as_stated :
  (get_field prerequisites_raw (labeled_fields_as_stated bare_label_block) = Some [] /\
   get_field prerequisites_raw (extract_labeled_fields bare_label_block) = None) /\
  (get_field prerequisites_raw (labeled_fields_as_stated bold_label_block)
   = Some (L "XYZ 10.") /\
   get_field prerequisites_raw (extract_labeled_fields bold_label_block) = None) /\
  (get_field prerequisites_raw (labeled_fields_as_stated emphasis_in_value_block)
   = Some (L "XYZ 10") /\
   get_field prerequisites_raw (extract_labeled_fields emphasis_in_value_block)
   = Some (L "XYZ 10 or consent.")) /\
  extract_labeled_fields bare_label_block
  <> labeled_fields_as_stated bare_label_block /\
  extract_labeled_fields bold_label_block
  <> labeled_fields_as_stated bold_label_block /\
  extract_labeled_fields emphasis_in_value_block
  <> labeled_fields_as_stated emphasis_in_value_block.
Proof.
  repeat split; try (vm_compute; reflexivity); vm_compute; discriminate.
Qed.

(** The text of a script that follows a label is collected: [get_text]
    on the script element returns it. *)
Example script_after_label :
  get_field prerequisites_raw (extract_labeled_fields script_after_label_block)
  = Some (L "var x=1;") /\
  get_text (L " ") (el_node script_after_label_block) = L "Prerequisite:".
Proof. vm_compute. auto. Qed.

(** ** Normalizing, further *)

Lemma visible_app (a b : text) : visible (a ++ b) = visible a ++ visible b.
Proof. apply filter_app. Qed.

Lemma visible_spaces (w : text) : forallb is_space w = true -> visible w = [].
Proof.
  induction w as [|c w IH]; simpl; [reflexivity|].
  intros H. apply andb_true_iff in H as [-> H]. simpl. auto.
Qed.

Lemma visible_sub_spaces (s : text) :
  forall b, visible (sub_spaces b s) = visible s.
Proof.
  induction s as [|c s IH]; intros b; simpl; [reflexivity|].
  destruct (is_space c) eqn:E; simpl.
  - destruct b; simpl; apply IH.
  - rewrite E. simpl. f_equal. apply IH.
Qed.

Lemma visible_strip (s : text) : visible (strip s) = visible s.
Proof.
  unfold strip.
  destruct (lstrip_split s) as [w [E Hw]].
  destruct (rstrip_split (lstrip s)) as [w' [E' Hw']].
  rewrite E at 2. rewrite E' at 2.
  rewrite !visible_app, (visible_spaces w Hw), (visible_spaces w' Hw').
  now rewrite app_nil_r.
Qed.

(** X1: normalizing twice is normalizing once. *)
Theorem norm_space_idempotent (s : text) :
  norm_space (norm_space s) = norm_space s.
Proof. apply norm_space_idem. Qed.

(** X2: in a normalized text white space is made of single blanks, none
    at either end. *)
Theorem norm_space_shape (s : text) :
  (forall c, In c (norm_space s) -> is_space c = true -> c = " ") /\
  (forall a c d b, norm_space s = a ++ c :: d :: b ->
                   is_space c = true -> is_space d = false) /\
  (forall c r, norm_space s = c :: r -> is_space c = false) /\
  (forall a c, norm_space s = a ++ [c] -> is_space c = false).
Proof.
  repeat split.
  - apply norm_space_blank.
  - intros a c d b E Hc.
    assert (Ec : c = " ").
    { apply (norm_space_blank s); [|assumption].
      rewrite E. apply in_or_app. right. now left. }
    subst c. pose proof (norm_space_single_spaced s) as H. rewrite E in H.
    now apply single_spaced_after_blank in H.
  - intros c r E. eapply normalized_head; [apply norm_space_idem | exact E].
  - intros a c E. destruct (is_space c) eqn:Hc; [|reflexivity].
    apply norm_space_no_trailing in E; [discriminate|].
    simpl. now rewrite Hc.
Qed.

(** X3: normalizing keeps the characters that are not white space, in
    their order, and gives the empty text exactly when there is none. *)
Theorem norm_space_keeps_visible (s : text) :
  visible (norm_space s) = visible s /\
  (norm_space s = [] <-> visible s = []).
Proof.
  assert (V : visible (norm_space s) = visible s).
  { unfold norm_space. now rewrite visible_strip, visible_sub_spaces. }
  split; [exact V|]. split.
  - intros E. now rewrite <- V, E.
  - intros E. apply norm_space_nil.
    clear V. induction s as [|c s IH]; simpl in *; [reflexivity|].
    destruct (is_space c); simpl in *; [auto | discriminate].
Qed.

(** ** The level group *)

Lemma level_of_parents_step (parent : node) (outer : list node) :
  level_of_parents (parent :: outer) =
  match marker_of parent with
  | Some l => Some l
  | None => level_of_parents outer
  end.
Proof.
  destruct parent as [plain s | name i cl cs]; simpl; [reflexivity|].
  repeat match goal with |- context [if ?b then _ else _] => destruct b end;
    reflexivity.
Qed.

Lemma level_of_parents_passes (pre : list node) (outer : list node) :
  (forall q, In q pre -> marker_of q = None) ->
  level_of_parents (pre ++ outer) = level_of_parents outer.
Proof.
  induction pre as [|q pre IH]; intros H; [reflexivity|].
  simpl app. rewrite level_of_parents_step, (H q (or_introl eq_refl)).
  apply IH. intros r Hr. apply H. now right.
Qed.

(** X4: the nearest ancestor whose id carries a marker gives the level;
    the ancestors before it, without marker, are passed over. *)
Theorem find_level_group_nearest (course_div : element)
    (pre : list node) (parent : node) (post : list node) (l : level) :
  el_parents course_div = pre ++ parent :: post ->
  (forall q, In q pre -> marker_of q = None) ->
  marker_of parent = Some l ->
  find_level_group course_div = Some (level_name l).
Proof.
  intros E Hpre Hp. unfold find_level_group.
  rewrite E, level_of_parents_passes by assumption.
  now rewrite level_of_parents_step, Hp.
Qed.

Lemma find_level_group_nearest_witness :
  find_level_group nested_levels_block = Some (L "Upper Division").
Proof.
  apply (find_level_group_nearest nested_levels_block
           [tag "table" []]
           (Tag (L "div") (Some (L "ctl00_RptrUpperDivisionCourses_ctl01")) [] [])
           [Tag (L "div") (Some (L "ctl00_rptrLowerDivisionCourses")) [] [];
            tag "[document]" []]
           UpperDivision).
  - reflexivity.
  - intros q [<- | []]. reflexivity.
  - vm_compute. reflexivity.
Defined.

(** X5: the level is absent exactly when no ancestor carries a marker. *)
Theorem find_level_group_absent (course_div : element) :
  find_level_group course_div = None <->
  forall q, In q (el_parents course_div) -> marker_of q = None.
Proof.
  unfold find_level_group. generalize (el_parents course_div) as ps.
  induction ps as [|p ps IH]; simpl In.
  - split; [intros _ q [] | reflexivity].
  - rewrite level_of_parents_step. destruct (marker_of p) as [l|] eqn:E.
    + split; [discriminate|]. intros H. specialize (H p (or_introl eq_refl)).
      congruence.
    + rewrite IH. split.
      * intros H q [<- | Hq]; auto.
      * intros H q Hq. apply H. now right.
Qed.

(** ** The header: the shape of what is returned *)

Lemma is_subject_intro (t : text) :
  forallb cls_upper t = true -> 2 <= List.length t -> List.length t <= 10 ->
  is_subject t = true.
Proof.
  intros H Hlo Hhi. unfold is_subject, len.
  repeat (apply andb_true_iff; split); try apply Nat.leb_le; assumption.
Qed.

Lemma is_number_intro (ds more : text) :
  forallb cls_digit ds = true -> 1 <= List.length ds -> List.length ds <= 3 ->
  forallb cls_upper_digit more = true -> List.length more <= 6 ->
  is_number (ds ++ more) = true.
Proof.
  intros Hd Hlo Hhi Hm Hlen. unfold is_number. apply existsb_exists.
  exists (List.length ds). split.
  - destruct ds as [|a [|b [|c [|d ds]]]]; simpl in *; try lia; auto.
  - unfold len. rewrite firstn_app, Nat.sub_diag, firstn_all, app_nil_r.
    rewrite skipn_app, Nat.sub_diag, skipn_all, length_app. simpl app.
    repeat (apply andb_true_iff; split); try apply Nat.leb_le;
      try assumption; lia.
Qed.

Ltac bounds :=
  repeat match goal with
         | H : forall h, Some ?n = Some h -> _ |- _ => specialize (H n eq_refl)
         end.

Ltac shapes :=
  repeat match goal with
         | |- _ /\ _ => split
         | |- is_subject _ = true => apply is_subject_intro; (assumption || lia)
         | |- is_number _ = true => apply is_number_intro; (assumption || lia)
         end.

Lemma header_match_shape (txt : text) (m : groups) :
  re_match COURSE_HEADER_RE txt = Some m ->
  is_subject (group 1 m) = true /\ is_number (group 2 m) = true.
Proof.
  unfold re_match. intros H. apply run_sound in H as (cur' & g' & M & E).
  injection E as <-.
  cbv [COURSE_HEADER_RE seq star plus lazy_plus between re_subject re_number] in M.
  inv_matches. simpl. captured. bounds. shapes.
Qed.

Lemma code_only_match_shape (txt : text) (m : groups) :
  re_match COURSE_CODE_ONLY_RE txt = Some m ->
  is_subject (group 1 m) = true /\ is_number (group 2 m) = true.
Proof.
  unfold re_match. intros H. apply run_sound in H as (cur' & g' & M & E).
  injection E as <-.
  cbv [COURSE_CODE_ONLY_RE seq star plus lazy_plus between re_subject re_number] in M.
  inv_matches. simpl. captured. bounds. shapes.
Qed.

Lemma header_search_shape (txt : text) (m : groups) :
  re_search HEADER_ANYWHERE_RE txt = Some m ->
  is_subject (group 1 m) = true /\ is_number (group 2 m) = true /\
  forallb cls_not_paren (group 3 m) = true.
Proof.
  unfold re_search. intros H. apply search_from_sound in H as (cur & cur' & M).
  cbv [HEADER_ANYWHERE_RE seq star plus lazy_plus between re_subject re_number] in M.
  inv_matches; simpl; captured; bounds; shapes; assumption.
Qed.

Lemma In_sub_spaces (b : bool) (s : text) (c : ascii) :
  In c (sub_spaces b s) -> c = " " \/ In c s.
Proof.
  revert b. induction s as [|a s IH]; intros b; simpl; [intros []|].
  destruct (is_space a).
  - destruct b; simpl.
    + intros H. destruct (IH _ H); auto.
    + intros [<- | H]; [now left|]. destruct (IH _ H); auto.
  - simpl. intros [<- | H]; [auto|]. destruct (IH _ H); auto.
Qed.

Lemma In_norm_space (s : text) (c : ascii) :
  In c (norm_space s) -> c = " " \/ In c s.
Proof. intros H. apply In_strip in H. revert H. apply In_sub_spaces. Qed.

(** X6: a header that is returned has a subject of 2 to 10 upper-case
    letters, a number of 1 to 3 digits and at most 6 upper-case letters
    or digits, and a non-empty normalized title. *)
Theorem extract_course_header_shape (course_div : element) (subj num ttl : text) :
  extract_course_header course_div = Some (subj, num, ttl) ->
  is_subject subj = true /\ is_number num = true /\
  ttl <> [] /\ norm_space ttl = ttl.
Proof.
  intros H.
  assert (Hne : ttl <> []) by now apply extract_course_header_nonempty in H.
  cut (is_subject subj = true /\ is_number num = true /\ norm_space ttl = ttl);
    [tauto|].
  unfold extract_course_header in H.
  destruct (header_from_id_title course_div) as [h|] eqn:H1.
  - injection H as ->. unfold header_from_id_title in H1.
    destruct (select_one _ course_div) as [id_title|]; [|discriminate].
    destruct (re_match COURSE_HEADER_RE _) as [m|] eqn:M.
    + apply header_match_shape in M as [Hs Hn]. unfold header_of_match in H1.
      injection H1 as <- <- <-. repeat split; auto. apply norm_space_idem.
    + destruct (contains _ _); [|discriminate].
      destruct (split1 _ _) as [left_part right_part].
      destruct (re_match COURSE_CODE_ONLY_RE _) as [m2|] eqn:M2; [|discriminate].
      destruct (nonempty _); [|discriminate].
      apply code_only_match_shape in M2 as [Hs Hn].
      injection H1 as <- <- <-. repeat split; auto. apply norm_space_idem.
  - destruct (header_from_first_b course_div) as [h|] eqn:H2.
    + injection H as ->. unfold header_from_first_b in H2.
      destruct (find _ course_div) as [b|]; [|discriminate].
      destruct (re_match COURSE_HEADER_RE _) as [m|] eqn:M; [|discriminate].
      apply header_match_shape in M as [Hs Hn]. unfold header_of_match in H2.
      injection H2 as <- <- <-. repeat split; auto. apply norm_space_idem.
    + unfold header_from_full_text in H.
      destruct (re_search _ _) as [m|] eqn:M; [|discriminate].
      destruct (nonempty _); [|discriminate].
      apply header_search_shape in M as (Hs & Hn & _).
      injection H as <- <- <-. repeat split; auto. apply norm_space_idem.
Qed.

Lemma extract_course_header_shape_witness :
  extract_course_header sample_course_block
  = Some (L "XYZ", L "100", L "Intro to Things") /\
  is_subject (L "XYZ") = true /\ is_number (L "100") = true /\
  L "Intro to Things" <> [] /\ norm_space (L "Intro to Things") = L "Intro to Things".
Proof.
  split; [vm_compute; reflexivity|].
  apply (extract_course_header_shape sample_course_block).
  vm_compute. reflexivity.
Defined.

(** X7: the title that the search in the text of the block finds holds
    no parenthesis. *)
Theorem header_from_full_text_no_parenthesis (course_div : element)
    (subj num ttl : text) :
  header_from_full_text course_div = Some (subj, num, ttl) ->
  forallb cls_not_paren ttl = true.
Proof.
  unfold header_from_full_text.
  destruct (re_search _ _) as [m|] eqn:M; [|discriminate].
  destruct (nonempty _); [|discriminate].
  apply header_search_shape in M as (_ & _ & Hp).
  intros H. injection H as <- <- <-.
  apply forallb_forall. intros c Hc. apply In_norm_space in Hc as [-> | Hc].
  - reflexivity.
  - revert c Hc. now apply forallb_forall.
Qed.

Lemma header_from_full_text_no_parenthesis_witness :
  header_from_full_text plain_text_block
  = Some (L "PSTAT", L "210", L "Measure Theory") /\
  forallb cls_not_paren (L "Measure Theory") = true.
Proof.
  split; [vm_compute; reflexivity|].
  apply (header_from_full_text_no_parenthesis plain_text_block (L "PSTAT") (L "210")).
  vm_compute. reflexivity.
Defined.

(** ** Units and instructors: what is returned *)

Lemma split_no_sep (sep : ascii) (s x : text) :
  In x (split sep s) -> ~ In sep x.
Proof.
  revert x. induction s as [|c s IH]; intros x; simpl.
  - intros [<- | []] [].
  - destruct (Ascii.eqb c sep) eqn:E.
    + intros [<- | H]; [intros [] | now apply IH].
    + destruct (split sep s) as [|piece pieces] eqn:Es.
      * intros [<- | []] [-> | []]. now rewrite Ascii.eqb_refl in E.
      * intros [<- | H].
        -- intros [-> | Hin]; [now rewrite Ascii.eqb_refl in E|].
           revert Hin. apply IH. now left.
        -- apply IH. now right.
Qed.

Lemma units_match_content (txt : text) (m : groups) :
  re_match UNITS_RE txt = Some m ->
  forallb cls_not_rparen (group 1 m) = true.
Proof.
  unfold re_match. intros H. apply run_sound in H as (cur' & g' & M & E).
  injection E as <-.
  cbv [UNITS_RE seq star plus lazy_plus between] in M.
  inv_matches. simpl. captured. assumption.
Qed.

Lemma instructors_of_names (t name : text) :
  In name (instructors_of t) ->
  name <> [] /\ norm_space name = name /\ ~ In ";" name.
Proof.
  unfold instructors_of. destruct (nonempty t); [|intros []].
  destruct (text_eqb _ _).
  - intros [<- | []]. split; [discriminate|]. split; [reflexivity|].
    simpl. intuition discriminate.
  - intros H. apply in_map_iff in H as (x & <- & Hx).
    apply filter_In in Hx as [Hx Hne]. apply nonempty_true in Hne.
    split; [assumption|]. split; [apply norm_space_idem|].
    intros Hin. apply In_norm_space in Hin as [E | Hin]; [discriminate|].
    revert Hin. eapply split_no_sep. eassumption.
Qed.

(** X8: every instructor returned is a non-empty normalized text without
    semicolon. *)
Theorem instructors_are_names (course_div : element) (name : text) :
  In name (snd (parse_units_and_instructors course_div)) ->
  name <> [] /\ norm_space name = name /\ ~ In ";" name.
Proof.
  unfold parse_units_and_instructors.
  destruct (select_one _ course_div) as [span|]; [|intros []].
  destruct (re_match UNITS_RE _) as [m|]; simpl; apply instructors_of_names.
Qed.

Lemma instructors_are_names_witness :
  snd (parse_units_and_instructors (units_block "(4-8) Smith, J. ;; Lee, K.;"))
  = [L "Smith, J."; L "Lee, K."] /\
  L "Lee, K." <> [] /\ norm_space (L "Lee, K.") = L "Lee, K." /\
  ~ In ";" (L "Lee, K.").
Proof.
  split; [vm_compute; reflexivity|].
  apply (instructors_are_names (units_block "(4-8) Smith, J. ;; Lee, K.;")).
  vm_compute. right. left. reflexivity.
Defined.

(** X9: the units, when there are some, are a normalized text without
    closing parenthesis. *)
Theorem units_are_normalized (course_div : element) (u : text) :
  fst (parse_units_and_instructors course_div) = Some u ->
  norm_space u = u /\ ~ In ")" u.
Proof.
  unfold parse_units_and_instructors.
  destruct (select_one _ course_div) as [span|]; [|discriminate].
  destruct (re_match UNITS_RE _) as [m|] eqn:M; simpl; [|discriminate].
  intros H. injection H as <-.
  split; [apply norm_space_idem|].
  apply units_match_content in M.
  intros Hin. apply In_norm_space in Hin as [E | Hin]; [discriminate|].
  rewrite forallb_forall in M. specialize (M _ Hin). discriminate.
Qed.

Lemma units_are_normalized_witness :
  fst (parse_units_and_instructors (units_block "( 1 -  4 ) STAFF")) = Some (L "1 - 4") /\
  norm_space (L "1 - 4") = L "1 - 4" /\ ~ In ")" (L "1 - 4").
Proof.
  split; [vm_compute; reflexivity|].
  apply (units_are_normalized (units_block "( 1 -  4 ) STAFF")).
  vm_compute. reflexivity.
Defined.

(** ** Labeled fields and description: what is returned *)

Lemma last_error_In {A : Type} (l : list A) (x : A) :
  last_error l = Some x -> In x l.
Proof.
  induction l as [|a l IH]; simpl; [discriminate|].
  destruct (last_error l) as [y|].
  - intros H. right. now apply IH.
  - intros H. injection H as <-. now left.
Qed.

(** X10: a field that is present holds a non-empty normalized text, the one
    collected after a [strong] element that bears a label of the field. *)
Theorem labeled_field_values (course_div : element) (f : field) (v : text) :
  get_field f (extract_labeled_fields course_div) = Some v ->
  v <> [] /\ norm_space v = v /\
  exists strong,
    In strong (find_all (L "strong") course_div) /\
    In (label_of strong) (labels_of f) /\
    v = label_value strong.
Proof.
  unfold extract_labeled_fields. rewrite labeled_loop_field.
  destruct (last_error _) as [s|] eqn:E.
  - intros H. injection H as <-. apply last_error_In in E.
    apply filter_In in E as [Hin Hl]. unfold labels_field in Hl.
    apply andb_true_iff in Hl as [Hlabel Hne].
    split; [now apply nonempty_true|]. split; [apply norm_space_idem|].
    exists s. split; [assumption|]. split; [|reflexivity].
    apply existsb_exists in Hlabel as (x & Hx & Ex).
    apply text_eqb_eq in Ex. now subst x.
  - destruct f; discriminate.
Qed.

Lemma labeled_field_values_witness :
  get_field prerequisites_raw (extract_labeled_fields sample_course_block)
  = Some (L "XYZ 10 with a grade of C or better.") /\
  L "XYZ 10 with a grade of C or better." <> [] /\
  norm_space (L "XYZ 10 with a grade of C or better.")
  = L "XYZ 10 with a grade of C or better." /\
  exists strong,
    In strong (find_all (L "strong") sample_course_block) /\
    In (label_of strong) (labels_of prerequisites_raw) /\
    L "XYZ 10 with a grade of C or better." = label_value strong.
Proof.
  split; [vm_compute; reflexivity|].
  apply (labeled_field_values sample_course_block prerequisites_raw).
  vm_compute. reflexivity.
Defined.

(** X11: the description is empty exactly when there is no candidate text,
    and it is always normalized. *)
Theorem extract_description_empty (course_div : element) :
  (extract_description course_div = [] <-> description_candidates course_div = []) /\
  norm_space (extract_description course_div) = extract_description course_div.
Proof.
  unfold extract_description. rewrite description_loop_candidates.
  fold (description_candidates course_div).
  assert (Hc : forall t, In t (description_candidates course_div) ->
                         t <> [] /\ norm_space t = t).
  { intros t Ht. unfold description_candidates in Ht.
    apply filter_In in Ht as [Ht Hne]. apply andb_true_iff in Hne as [Hne _].
    split; [now apply nonempty_true|].
    apply in_map_iff in Ht as (d & <- & _). apply norm_space_idem. }
  destruct (longer_loop (description_candidates course_div) [])
    as [[Er Hall] | (i & Hi & Hlt & _)].
  - rewrite Er. split; [|reflexivity]. split; [|reflexivity]. intros _.
    destruct (description_candidates course_div) as [|t l]; [reflexivity|].
    exfalso. destruct (Hc t (or_introl eq_refl)) as [Hne _].
    specialize (Hall t (or_introl eq_refl)). destruct t; [congruence|].
    simpl in Hall. lia.
  - apply nth_error_In in Hi. destruct (Hc _ Hi) as [Hne Hnorm].
    split; [|assumption]. split; [congruence|].
    intros E. rewrite E in Hi. destruct Hi.
Qed.

(** ** The progress bar: what it draws *)

Section BarDrawn.

Open Scope Z_scope.

(** X12: with a count that is not negative and a width below 2^53, the
    bar drawn has [width] cells, all of them filled, at 100 percent, once
    the count reaches the total. *)
Theorem update_draws_full_width (self self' : ProgressBar) (inc : Z)
    (line : progress_line) :
  1 <= total self -> 0 <= width self < 2 ^ 53 -> 0 <= current self + inc ->
  update self inc = inr (self', line) ->
  (filled line + blank line)%nat = Z.to_nat (width self) /\
  (total self <= current self + inc ->
   filled line = Z.to_nat (width self) /\ blank line = 0%nat /\
   percent line = Fin float_100).
Proof.
  intros Ht Hw Hc H. unfold update in H. cbn [current total width] in H.
  pose proof one_in_units_pos as H1.
  rewrite true_div_nonneg in H by lia. cbv zeta in H.
  set (m := round_units ((current self + inc) * one_in_units) (total self)) in *.
  assert (M0 : 0 <= m) by (apply round_units_nonneg; nia).
  destruct (overflows m); [discriminate|].
  destruct (float_min_one {| negative := false; magnitude := m |})
    as (Rs & Ru & Rfull & _); [reflexivity | assumption |].
  cbn [magnitude] in Rfull.
  rewrite float_of_int_small in H by assumption.
  destruct (float_mul_small _ (width self) Rs Ru Hw) as (p & E & Hp).
  rewrite E in H. cbn [int_of_float negative magnitude] in H.
  injection H as <- <-. cbn [filled blank percent width].
  assert (I0 : 0 <= p / one_in_units) by (apply Z.div_pos; lia).
  assert (I1 : p / one_in_units <= width self)
    by (apply Z.div_le_upper_bound; lia).
  split; [lia|]. intros Hfull.
  rewrite Rfull in * by (now apply true_div_at_least_one).
  rewrite float_mul_one in E by assumption.
  injection E as <-. rewrite Z.div_mul by lia.
  split; [lia|]. split; [lia|].
  unfold float_mul, float_1, float_100. cbn [negative magnitude xorb].
  rewrite round_units_exact by (try apply representable_int; lia).
  rewrite (overflows_small _ 100) by (try apply small_int; lia).
  reflexivity.
Qed.

Lemma update_draws_full_width_witness :
  exists self' line,
    update (ProgressBar_init 4 30) 4 = inr (self', line) /\
    (filled line + blank line)%nat = Z.to_nat 30 /\
    (4 <= 0 + 4 ->
     filled line = Z.to_nat 30 /\ blank line = 0%nat /\
     percent line = Fin float_100).
Proof.
  eexists _, _. split; [vm_compute; reflexivity|].
  eapply (update_draws_full_width (ProgressBar_init 4 30));
    [simpl; lia | simpl; lia | simpl; lia |].
  vm_compute. reflexivity.
Defined.


End BarDrawn.

(** X13: calls of [update] add up the increments; they change neither the
    total nor the width, and each writes one line with that total. *)
Theorem updates_accumulate (incs : list Z) :
  forall self self' lines,
    updates self incs = inr (self', lines) ->
    current self' = (current self + fold_right Z.add 0 incs)%Z /\
    total self' = total self /\ width self' = width self /\
    List.length lines = List.length incs /\
    Forall (fun line => shown_total line = total self) lines.
Proof.
  induction incs as [|inc incs IH]; intros self self' lines; simpl.
  - intros H. injection H as <- <-. repeat split; [lia | constructor].
  - destruct (update self inc) as [|[self1 line]] eqn:U; [discriminate|].
    destruct (updates self1 incs) as [|[self2 lines2]] eqn:Us; [discriminate|].
    intros H. injection H as <- <-.
    apply update_state in U as (Uc & Ut & Uw & _ & Ust).
    destruct (IH _ _ _ Us) as (Hc & Ht & Hw & Hl & Hall).
    rewrite Hc, Ht, Hw, Uc, Ut, Uw. simpl. rewrite Hl.
    repeat split; [lia|]. constructor; [assumption|].
    eapply Forall_impl; [|exact Hall]. simpl. intros l Hl'. congruence.
Qed.

Lemma updates_accumulate_witness :
  exists self' lines,
    updates (ProgressBar_init 0 30) [1; 1; 0]%Z = inr (self', lines) /\
    current self' = (0 + fold_right Z.add 0 [1; 1; 0])%Z /\
    total self' = 1%Z /\ width self' = 30%Z /\
    List.length lines = 3 /\
    Forall (fun line => shown_total line = 1%Z) lines.
Proof.
  eexists _, _. split; [vm_compute; reflexivity|].
  apply (updates_accumulate [1; 1; 0]%Z (ProgressBar_init 0 30)).
  vm_compute. reflexivity.
Defined.


(** ** The driver: what a run leaves behind *)


Section RunOutput.

Variables exn response : Type.
Variable requests_get : text -> exn + response.
Variable raise_for_status : response -> option exn.
Variable response_text : response -> text.
Variable BeautifulSoup : text -> node.

(** The pages the first pass keeps are those of the URLs, in order. *)
Lemma first_pass_pages (urls : list text) :
  forall requested pages est,
    (forall u, In u urls ->
       exists html, fetch requests_get raise_for_status response_text u = inr html) ->
    exists new,
      first_pass requests_get raise_for_status response_text BeautifulSoup
        urls requested pages est =
      (inr (pages ++ new, count_pages BeautifulSoup est new), requested ++ urls) /\
      records_of_pages BeautifulSoup new =
      flat_map
        (fun u => records_of_blocks u
           (blocks_at requests_get raise_for_status response_text BeautifulSoup u))
        urls /\
      skipped_of_pages BeautifulSoup new =
      flat_map
        (fun u => skipped_blocks u
           (blocks_at requests_get raise_for_status response_text BeautifulSoup u))
        urls /\
      flat_map (fun page => course_displays BeautifulSoup (snd page)) new =
      flat_map (blocks_at requests_get raise_for_status response_text BeautifulSoup)
        urls.
Proof.
  induction urls as [|url urls IH]; intros requested pages est H; simpl.
  - exists []. now rewrite !app_nil_r.
  - destruct (H url (or_introl eq_refl)) as [html E]. rewrite E.
    destruct (IH (requested ++ [url]) (pages ++ [(url, html)])
                (count_headers est (course_displays BeautifulSoup html)))
      as (new & -> & Hr & Hs & Hb); [intros u Hu; apply H; now right|].
    exists ((url, html) :: new). rewrite <- !app_assoc.
    unfold records_of_pages, skipped_of_pages, blocks_at in *.
    simpl. rewrite E, Hr, Hs, Hb. auto.
Qed.

(** A run in which every fetch succeeds. *)
Lemma main_with_success (urls : list text) :
  (forall u, In u urls ->
     exists html, fetch requests_get raise_for_status response_text u = inr html) ->
  let records :=
    flat_map
      (fun u => records_of_blocks u
         (blocks_at requests_get raise_for_status response_text BeautifulSoup u))
      urls in
  let without :=
    flat_map
      (fun u => skipped_blocks u
         (blocks_at requests_get raise_for_status response_text BeautifulSoup u))
      urls in
  let n := List.length records in
  exists lines,
    main_with requests_get raise_for_status response_text BeautifulSoup urls =
    {| raised := None;
       requested_urls := urls;
       printed := map Progress lines ++
                  [Newline; Wrote n out_path; Skipped (Z.of_nat (List.length without))];
       written := Some (out_path, records);
       estimated := Some (Z.of_nat n) |} /\
    map shown_current lines = map Z.of_nat (List.seq 1 n ++ [n]) /\
    Forall (fun line => shown_total line = Z.max (Z.of_nat n) 1) lines.
Proof.
  intros H records without n. unfold main_with.
  destruct (first_pass_pages urls [] [] 0%Z H) as (new & -> & Hr & Hs & _).
  fold records in Hr. fold without in Hs. cbn [app].
  destruct (second_pass_of_first exn BeautifulSoup new)
    as (Eest & st & lines & line & b' & -> & U & Hc & Hsk & Hout & Hshown & Hall).
  rewrite Hr in Eest, Hc, Hshown. rewrite Hs in Hsk. fold n in Eest, Hshown.
  unfold finish. rewrite U.
  exists (lines ++ [line]). cbn [all_courses skipped bar stdout].
  rewrite Hc, Hsk, Hout, Eest. fold n.
  split; [f_equal; rewrite map_app, <- !app_assoc; reflexivity|].
  split; [exact Hshown|]. now rewrite <- Eest.
Qed.

(** Either every fetch succeeds or there is a first one that fails. *)
Lemma fetch_all_or_first_failure (urls : list text) :
  (forall u, In u urls ->
     exists html, fetch requests_get raise_for_status response_text u = inr html) \/
  (exists pre u post e,
      urls = pre ++ u :: post /\
      fetch requests_get raise_for_status response_text u = inl e /\
      forall v, In v pre ->
        exists html, fetch requests_get raise_for_status response_text v = inr html).
Proof.
  induction urls as [|a urls IH].
  - left. intros u [].
  - destruct (fetch requests_get raise_for_status response_text a) as [e|html] eqn:E.
    + right. exists [], a, urls, e. repeat split; auto. intros v [].
    + destruct IH as [IH | (pre & u & post & e & -> & Hu & Hpre)].
      * left. intros u [<- | Hu]; eauto.
      * right. exists (a :: pre), u, post, e. repeat split; auto.
        intros v [<- | Hv]; eauto.
Qed.

End RunOutput.

Lemma parse_course_record (cd : element) (url : text) (c : course) :
  parse_course cd url = Some c ->
  subject c <> [] /\ number c <> [] /\ title c <> [] /\
  code c = subject c ++ L " " ++ number c /\ source_url c = url.
Proof.
  unfold parse_course.
  destruct (extract_course_header cd) as [[[subj num] ttl]|] eqn:H; [|discriminate].
  destruct (parse_units_and_instructors cd) as [u i].
  intros E. injection E as <-. simpl.
  apply extract_course_header_nonempty in H as (Hs & Hn & Ht). auto.
Qed.

Section RunClaims.

Variables exn response : Type.
Variable requests_get : text -> exn + response.
Variable raise_for_status : response -> option exn.
Variable response_text : response -> text.
Variable BeautifulSoup : text -> node.



(** X16: the progress lines of a run that writes [n] records count 1 to
    [n], then [n] once more, against the total [max n 1], never above it. *)
Theorem run_progress_counts (urls : list text) :
  (forall u, In u urls ->
     exists html, fetch requests_get raise_for_status response_text u = inr html) ->
  let r := main_with requests_get raise_for_status response_text BeautifulSoup urls in
  exists courses n,
    written r = Some (out_path, courses) /\ n = List.length courses /\
    map shown_current (progress_lines (printed r)) = map Z.of_nat (List.seq 1 n ++ [n]) /\
    Forall (fun line => shown_total line = Z.max (Z.of_nat n) 1 /\
                        (shown_current line <= shown_total line)%Z)
           (progress_lines (printed r)).
Proof.
  intros H r. subst r.
  destruct (main_with_success _ _ requests_get raise_for_status response_text
              BeautifulSoup urls H) as (lines & -> & Hshown & Hall).
  eexists _, _. cbn [written printed].
  split; [reflexivity|]. split; [reflexivity|].
  rewrite progress_lines_app, progress_lines_map. cbn [progress_lines flat_map app].
  rewrite app_nil_r. split; [assumption|].
  apply Forall_forall. intros line Hline.
  rewrite Forall_forall in Hall. rewrite (Hall line Hline). split; [reflexivity|].
  assert (Hin : In (shown_current line) (map shown_current lines))
    by now apply in_map.
  rewrite Hshown in Hin. apply in_map_iff in Hin as (i & <- & Hi).
  apply in_app_or in Hi as [Hi | [<- | []]]; [apply in_seq in Hi|]; lia.
Qed.


(** X18: every record written has a non-empty subject, number and title,
    the code "subject number", and the URL of one of the pages as source. *)
Theorem emitted_records (urls : list text) (path : text) (courses : list course)
    (c : course) :
  written (main_with requests_get raise_for_status response_text BeautifulSoup urls)
  = Some (path, courses) ->
  In c courses ->
  path = out_path /\
  subject c <> [] /\ number c <> [] /\ title c <> [] /\
  code c = subject c ++ L " " ++ number c /\
  In (source_url c) urls.
Proof.
  destruct (fetch_all_or_first_failure _ _ requests_get raise_for_status
              response_text urls) as [H | (pre & u & post & e & -> & Hu & Hpre)].
  - destruct (main_with_success _ _ requests_get raise_for_status response_text
                BeautifulSoup urls H) as (lines & -> & _).
    cbn [written]. intros E Hc. injection E as <- <-.
    split; [reflexivity|].
    apply in_flat_map in Hc as (u & Hu & Hc).
    unfold records_of_blocks in Hc. apply in_flat_map in Hc as (cd & _ & Hc).
    destruct (parse_course cd u) as [c'|] eqn:P; [|destruct Hc].
    destruct Hc as [<- | []].
    apply parse_course_record in P as (Hs & Hn & Ht & Hcode & Hurl).
    rewrite Hurl. auto 6.
  - unfold main_with.
    rewrite (first_pass_failure _ _ _ _ _ _ pre u post e [] [] 0%Z Hpre Hu).
    discriminate.
Qed.

End RunClaims.



Lemma run_progress_counts_witness :
  let r := main_with network_up status_ok body_of sample_parser URLS in
  exists courses n,
    written r = Some (out_path, courses) /\ n = List.length courses /\
    map shown_current (progress_lines (printed r)) = map Z.of_nat (List.seq 1 n ++ [n]) /\
    Forall (fun line => shown_total line = Z.max (Z.of_nat n) 1 /\
                        (shown_current line <= shown_total line)%Z)
           (progress_lines (printed r)).
Proof.
  apply (run_progress_counts nat text network_up status_ok body_of sample_parser URLS).
  intros u _. exists (L "<html></html>"). reflexivity.
Defined.

Lemma emitted_records_witness :
  exists courses c,
    written (main_with network_up status_ok body_of sample_parser URLS)
    = Some (out_path, courses) /\
    In c courses /\
    out_path = out_path /\
    subject c <> [] /\ number c <> [] /\ title c <> [] /\
    code c = subject c ++ L " " ++ number c /\
    In (source_url c) URLS.
Proof.
  eexists _, _. split; [vm_compute; reflexivity|]. split; [left; reflexivity|].
  eapply (emitted_records nat text network_up status_ok body_of sample_parser URLS).
  - vm_compute. reflexivity.
  - left. reflexivity.
Defined.

(** ** The matcher: a match that exists is found *)

Lemma rep_complete {A} cls lo hi greedy :
  forall taken s n p (k : cursor -> option A) x,
    forallb cls taken = true ->
    lo <= n + List.length taken ->
    (forall h, hi = Some h -> n + List.length taken <= h) ->
    k {| pos := p + List.length taken; rest := s |} = Some x ->
    exists y, rep cls lo hi greedy n (taken ++ s) p k = Some y.
Proof.
  induction taken as [|c taken IH]; intros s n p k x Hall Hlo Hhi Hk.
  - simpl in *. rewrite Nat.add_0_r in *.
    assert (Hstop : (if lo <=? n then k {| pos := p; rest := s |} else None) = Some x).
    { apply Nat.leb_le in Hlo. now rewrite Hlo. }
    destruct s as [|c s]; simpl; [eauto|]. rewrite Hstop.
    destruct (cls c && below n hi); [|eauto].
    destruct greedy; [|eauto].
    destruct (rep cls lo hi true (S n) s (S p) k); eauto.
  - simpl in Hall. apply andb_true_iff in Hall as [Hc Hall].
    assert (Hb : below n hi = true).
    { destruct hi as [h|]; [|reflexivity]. simpl. apply Nat.ltb_lt.
      specialize (Hhi h eq_refl). simpl in Hhi. lia. }
    destruct (IH s (S n) (S p) k x) as [y Hy]; auto.
    + simpl in Hlo. lia.
    + intros h Eh. specialize (Hhi h Eh). simpl in Hhi. lia.
    + simpl in Hk. now replace (S p + List.length taken)
        with (p + S (List.length taken)) by lia.
    + simpl. rewrite Hc, Hb. simpl. rewrite Hy.
      destruct greedy; [eauto|].
      destruct (if lo <=? n then _ else None); eauto.
Qed.

Lemma run_complete {A} r cur g cur' g' :
  matches r cur g cur' g' ->
  forall (k : cursor -> groups -> option A) x,
    k cur' g' = Some x -> exists y, run r cur g k = Some y.
Proof.
  induction 1; intros k x Hk; simpl.
  - rewrite H. simpl. eauto.
  - rewrite H. eauto.
  - rewrite H. eauto.
  - apply (rep_complete cls lo hi greedy taken s 0 p (fun cur' => k cur' g) x); auto.
  - destruct (IHmatches2 k x Hk) as [y Hy].
    apply (IHmatches1 (fun cur' g' => run r2 cur' g' k) y Hy).
  - destruct (IHmatches k x Hk) as [y ->]. eauto.
  - destruct (run r1 cur g k); [eauto|]. apply (IHmatches k x Hk).
  - apply (IHmatches (fun cur' g' =>
      k cur' ((i, firstn (pos cur' - pos cur) (rest cur)) :: g')) x Hk).
Qed.

(** ** The header: the second reading of the span *)

Lemma contains_char (c : ascii) (s : text) : contains [c] s = true -> In c s.
Proof.
  induction s as [|a s IH]; simpl; [discriminate|].
  intros H. apply orb_true_iff in H as [H | H]; [|right; auto].
  left. apply andb_true_iff in H as [H _]. apply Ascii.eqb_eq in H. congruence.
Qed.

Lemma split1_spec (sep : ascii) (s l r : text) :
  In sep s -> split1 sep s = (l, r) -> s = l ++ sep :: r.
Proof.
  revert l r. induction s as [|c s IH]; intros l r Hin; [destruct Hin|]. simpl.
  destruct (Ascii.eqb c sep) eqn:E.
  - apply Ascii.eqb_eq in E. subst c. intros H. now injection H as <- <-.
  - destruct Hin as [-> | Hin]; [now rewrite Ascii.eqb_refl in E|].
    destruct (split1 sep s) as [l' r']. intros H. injection H as <- <-.
    simpl. f_equal. now apply IH.
Qed.

Lemma code_only_match_parts (t : text) (m : groups) :
  re_match COURSE_CODE_ONLY_RE t = Some m ->
  exists w0 subj w1 n1 n0 w2,
    t = w0 ++ subj ++ w1 ++ n1 ++ n0 ++ w2 /\
    forallb is_space w0 = true /\
    forallb cls_upper subj = true /\ 2 <= List.length subj <= 10 /\
    forallb is_space w1 = true /\ 1 <= List.length w1 /\
    forallb cls_digit n1 = true /\ 1 <= List.length n1 <= 3 /\
    forallb cls_upper_digit n0 = true /\ List.length n0 <= 6 /\
    forallb is_space w2 = true.
Proof.
  unfold re_match. intros H. apply run_sound in H as (cur' & g' & M & E).
  injection E as <-.
  cbv [COURSE_CODE_ONLY_RE seq star plus lazy_plus between re_subject re_number] in M.
  inv_matches. simpl in *. bounds.
  eexists _, _, _, _, _, _. split; [reflexivity|].
  repeat split; try assumption; try lia.
  rewrite forallb_app. apply andb_true_iff. split; [assumption|].
  now apply at_eol_space.
Qed.

Ltac rep_side :=
  try assumption; try reflexivity; try (simpl; lia); try discriminate;
  try (let h := fresh "h" in let E := fresh "E" in
       intros h E; injection E as <-; lia).

(** The header pattern matches every text made of a code, a period and
    something to read as a title. *)
Lemma header_match_exists (w0 subj w1 n1 n0 w2 ttl w3 : text) :
  forallb is_space w0 = true ->
  forallb cls_upper subj = true -> 2 <= List.length subj <= 10 ->
  forallb is_space w1 = true -> 1 <= List.length w1 ->
  forallb cls_digit n1 = true -> 1 <= List.length n1 <= 3 ->
  forallb cls_upper_digit n0 = true -> List.length n0 <= 6 ->
  forallb is_space w2 = true ->
  forallb cls_dot ttl = true -> ttl <> [] ->
  forallb is_space w3 = true ->
  exists m,
    re_match COURSE_HEADER_RE
      (w0 ++ subj ++ w1 ++ n1 ++ n0 ++ w2 ++ "." :: ttl ++ w3) = Some m.
Proof.
  intros Hw0 Hsubj Hls Hw1 Hlw1 Hn1 Hln1 Hn0 Hln0 Hw2 Httl Hne Hw3.
  rewrite <- (app_nil_r w3). unfold re_match.
  eapply (run_complete COURSE_HEADER_RE _ [] _ _); [|reflexivity].
  cbv [COURSE_HEADER_RE seq star plus lazy_plus between re_subject re_number].
  eapply M_Seq; [now apply M_Bol|].
  eapply M_Seq; [apply (M_Rep _ _ _ _ w0); rep_side|].
  eapply M_Seq; [apply M_Grp; apply (M_Rep _ _ _ _ subj); rep_side|].
  eapply M_Seq; [apply (M_Rep _ _ _ _ w1); rep_side|].
  eapply M_Seq.
  { apply M_Grp. eapply M_Seq.
    - apply (M_Rep _ _ _ _ n1); rep_side.
    - apply (M_Rep _ _ _ _ n0); rep_side. }
  eapply M_Seq; [apply (M_Rep _ _ _ _ w2); rep_side|].
  eapply M_Seq; [now apply M_Chr|].
  eapply M_Seq; [apply (M_Rep _ _ _ _ [] (ttl ++ w3 ++ [])); rep_side|].
  eapply M_Seq.
  { apply M_Grp. apply (M_Rep _ _ _ _ ttl); rep_side.
    destruct ttl; [congruence | simpl; lia]. }
  eapply M_Seq; [apply (M_Rep _ _ _ _ w3 []); rep_side|].
  now apply M_Eol.
Qed.

(** On a normalized text that the header pattern does not match, the
    text before the first period is no course code, or nothing but
    white space follows the period. *)
Lemma header_fallback_dead (raw l r : text) (m2 : groups) :
  re_match COURSE_HEADER_RE (norm_space raw) = None ->
  norm_space raw = l ++ "." :: r ->
  re_match COURSE_CODE_ONLY_RE (norm_space l) = Some m2 ->
  norm_space r = [].
Proof.
  intros Hnone E M2.
  destruct (norm_space r) as [|c0 r0] eqn:Er; [reflexivity|]. exfalso.
  assert (Hss : single_spaced false (norm_space raw) = true)
    by apply norm_space_single_spaced.
  assert (Hdot : forallb cls_dot (norm_space raw) = true)
    by apply normalized_dot, norm_space_idem.
  rewrite E in Hss, Hdot.
  assert (Hl : norm_space l = strip l).
  { apply norm_space_strip. now apply single_spaced_app in Hss. }
  rewrite Hl in M2.
  apply code_only_match_parts in M2
    as (w0 & subj & w1 & n1 & n0 & w2 & El & Hw0 & Hsubj & Hls & Hw1 & Hlw1 &
        Hn1 & Hln1 & Hn0 & Hln0 & Hw2).
  destruct (lstrip_split l) as [a [Ea Ha]].
  destruct (rstrip_split (lstrip l)) as [b [Eb Hb]].
  fold (strip l) in Eb.
  destruct (rstrip_split r) as [w3 [Ew3 Hw3]].
  assert (Hr : rstrip r <> []).
  { intros Hnil. apply rstrip_nil in Hnil. apply norm_space_nil in Hnil.
    congruence. }
  rewrite forallb_app in Hdot. apply andb_true_iff in Hdot as [_ Hdot].
  simpl in Hdot.
  rewrite Ew3, forallb_app in Hdot. apply andb_true_iff in Hdot as [Hd1 Hd2].
  destruct (header_match_exists (a ++ w0) subj w1 n1 n0 (w2 ++ b) (rstrip r) w3)
    as [m Hm]; auto.
  - rewrite forallb_app, Ha, Hw0. reflexivity.
  - rewrite forallb_app, Hw2, Hb. reflexivity.
  - rewrite E in Hnone.
    assert (Etxt : l ++ "." :: r =
                   (a ++ w0) ++ subj ++ w1 ++ n1 ++ n0 ++ (w2 ++ b) ++ "." :: rstrip r ++ w3).
    { rewrite Ea at 1. rewrite Eb at 1. rewrite El at 1. rewrite Ew3 at 1.
      rewrite <- !app_assoc. reflexivity. }
    rewrite Etxt in Hnone. congruence.
Qed.

(** X19: what the first strategy returns is what the header pattern
    gives on the text of the span; the reading by the period adds
    nothing, for the header pattern matches wherever it would succeed. *)
Theorem header_from_id_title_one_pattern (course_div : element) :
  header_from_id_title course_div =
  match select_one (SelClass (L "span") (L "CourseIdAndTitle")) course_div with
  | Some id_title =>
      option_map header_of_match
        (re_match COURSE_HEADER_RE (element_text id_title))
  | None => None
  end.
Proof.
  unfold header_from_id_title.
  destruct (select_one _ course_div) as [id_title|]; [|reflexivity].
  fold (element_text id_title).
  destruct (re_match COURSE_HEADER_RE (element_text id_title)) as [m|] eqn:M;
    [reflexivity|].
  simpl. destruct (contains _ _) eqn:C; [|reflexivity].
  destruct (split1 "." (element_text id_title)) as [l r] eqn:S.
  destruct (re_match COURSE_CODE_ONLY_RE (norm_space l)) as [m2|] eqn:M2;
    [|reflexivity].
  apply contains_char in C. apply (split1_spec _ _ _ _ C) in S.
  unfold element_text in *.
  now rewrite (header_fallback_dead _ l r m2 M S M2).
Qed.
